(** * go-sharding: inline expressions, LIMIT rewriting and the session executor

    A shallow embedding of
    - [core/script]: [splitSegments] and [inlineExpr.Flat],
    - [rewriting]: [NewLimitWriter],
    - [proxy/server]: the query entry point and the session handlers of
      [SessionExecutor],
    with the properties the design specification states about them. *)

From Stdlib Require Import ZArith Ascii String List Lia Bool.
From Stdlib.Strings Require Import Byte.
From stdpp Require Import base option list gmap strings.

Local Open Scope Z_scope.

(** ** Machine integers

    Go's fixed-width integers are integers with explicit wrap-around. *)

Definition wrap_int64 (z : Z) : Z := (z + 2 ^ 63) mod 2 ^ 64 - 2 ^ 63.

Definition in_int64 (z : Z) : Prop := - 2 ^ 63 <= z < 2 ^ 63.

Lemma wrap_int64_id z : in_int64 z -> wrap_int64 z = z.
Proof.
  unfold in_int64, wrap_int64. intros Hz.
  rewrite Z.mod_small by lia. lia.
Qed.

(** ** rewriting/limit_writer.go *)

Module Rewriting.

(** [explain.Context.LimitLookup()]: the three observers the rewriter
    reads. [Count] and [Offset] are [int64]. *)
Record LimitLookup := {
  HasLimit : bool;
  Count : Z;
  Offset : Z
}.

(** [driver.ValueExpr] after [SetInt64]. *)
Record ValueExpr := { Int64Value : Z }.

(** [ast.Limit]: both fields are nilable expression nodes. *)
Record Limit := {
  LimitCount : option ValueExpr;
  LimitOffset : option ValueExpr
}.

Definition errNoLimit : string := "there is none limit in plain context".

Definition NewLimitWriter (context : LimitLookup) : Limit + string :=
  if HasLimit context then inr errNoLimit
  else
    let newCount := Count context in
    let newCount :=
      if 0 <? Offset context then wrap_int64 (newCount + Offset context)
      else newCount in
    inl {| LimitCount := Some {| Int64Value := newCount |};
           LimitOffset := None |}.

(** The context of [LIMIT 5, 3]. *)
Definition limit_5_3 : LimitLookup :=
  {| HasLimit := true; Count := 3; Offset := 5 |}.

(** C2 (code defect): on the context of [LIMIT 5, 3] the rewriter does not
    produce [LIMIT 8]; it returns the error whose text says that the
    context has no limit. *)
Theorem NewLimitWriter_limit_5_3 :
  NewLimitWriter limit_5_3 = inr errNoLimit.
Proof. reflexivity. Qed.

(** The guard is inverted for every context: a context that carries a
    limit is always refused. *)
Lemma NewLimitWriter_has_limit context :
  HasLimit context = true -> NewLimitWriter context = inr errNoLimit.
Proof. unfold NewLimitWriter. by intros ->. Qed.

(** What the body after the guard computes, reached only when [HasLimit]
    answers [false]: the count is [offset + count] for a positive offset
    and the offset node is absent. *)
Lemma NewLimitWriter_no_limit context :
  HasLimit context = false ->
  in_int64 (Count context + Offset context) ->
  NewLimitWriter context =
    inl {| LimitCount :=
             Some {| Int64Value :=
                       if 0 <? Offset context
                       then Count context + Offset context
                       else Count context |};
           LimitOffset := None |}.
Proof.
  unfold NewLimitWriter. intros -> Hr.
  destruct (0 <? Offset context); [|done].
  by rewrite wrap_int64_id.
Qed.

(** X1: past the guard the rewriter never fails and never writes an
    offset node. With both numbers in the range of [int64], the new count
    is in that range; it is the old count when the offset is zero or
    negative, and [count + offset] when the offset is positive and the sum
    fits. *)
Theorem NewLimitWriter_count context :
  HasLimit context = false ->
  in_int64 (Count context) -> in_int64 (Offset context) ->
  exists n,
    NewLimitWriter context =
      inl {| LimitCount := Some {| Int64Value := n |}; LimitOffset := None |}
    /\ in_int64 n
    /\ (Offset context <= 0 -> n = Count context)
    /\ (0 < Offset context -> Count context + Offset context < 2 ^ 63 ->
        n = Count context + Offset context).
Proof.
  unfold NewLimitWriter, in_int64. intros -> Hc Ho.
  destruct (Z.ltb_spec 0 (Offset context)) as [Hpos|Hneg].
  - eexists. split; [reflexivity|]. unfold wrap_int64.
    split; [|split; [lia|]].
    + pose proof (Z.mod_pos_bound (Count context + Offset context + 2 ^ 63)
                    (2 ^ 64) eq_refl). lia.
    + intros _ Hfit. rewrite Z.mod_small by lia. lia.
  - exists (Count context). repeat split; (done || lia).
Qed.

Lemma NewLimitWriter_count_witness :
  exists n,
    NewLimitWriter {| HasLimit := false; Count := 3; Offset := 5 |} =
      inl {| LimitCount := Some {| Int64Value := n |}; LimitOffset := None |}
    /\ in_int64 n
    /\ (5 <= 0 -> n = 3)
    /\ (0 < 5 -> 3 + 5 < 2 ^ 63 -> n = 3 + 5).
Proof.
  apply (NewLimitWriter_count {| HasLimit := false; Count := 3; Offset := 5 |});
    [reflexivity|unfold in_int64; simpl; lia|unfold in_int64; simpl; lia].
Defined.

(** X2: the sum is not guarded. When [count + offset] passes the largest
    [int64], the rewriter still succeeds, and the count it writes is the
    sum less [2 ^ 64], a negative number. *)
Theorem NewLimitWriter_overflow context :
  HasLimit context = false ->
  in_int64 (Count context) -> in_int64 (Offset context) ->
  0 < Offset context ->
  2 ^ 63 <= Count context + Offset context ->
  NewLimitWriter context =
    inl {| LimitCount :=
             Some {| Int64Value := Count context + Offset context - 2 ^ 64 |};
           LimitOffset := None |}
  /\ Count context + Offset context - 2 ^ 64 < 0.
Proof.
  unfold NewLimitWriter, in_int64. intros -> Hc Ho Hpos Hover.
  apply Z.ltb_lt in Hpos as Hpos'. rewrite Hpos'. split; [|lia].
  assert (wrap_int64 (Count context + Offset context)
          = Count context + Offset context - 2 ^ 64) as ->; [|reflexivity].
  unfold wrap_int64.
  replace (Count context + Offset context + 2 ^ 63)
    with (Count context + Offset context - 2 ^ 63 + 1 * 2 ^ 64) by lia.
  rewrite Z.mod_add by lia. rewrite Z.mod_small by lia. lia.
Qed.

Lemma NewLimitWriter_overflow_witness :
  NewLimitWriter {| HasLimit := false; Count := 2 ^ 63 - 1; Offset := 1 |} =
    inl {| LimitCount := Some {| Int64Value := 2 ^ 63 - 1 + 1 - 2 ^ 64 |};
           LimitOffset := None |}
  /\ 2 ^ 63 - 1 + 1 - 2 ^ 64 < 0.
Proof.
  apply (NewLimitWriter_overflow
           {| HasLimit := false; Count := 2 ^ 63 - 1; Offset := 1 |});
    [reflexivity|unfold in_int64; simpl; lia|unfold in_int64; simpl; lia
    |simpl; lia|simpl; lia].
Defined.

End Rewriting.

(** ** Strings as Go has them: byte sequences *)

Definition string_rev (s : string) : string :=
  string_of_list_ascii (rev (list_ascii_of_string s)).

Fixpoint drop_while_in (cutset : list ascii) (l : list ascii) : list ascii :=
  match l with
  | [] => []
  | c :: l' =>
      if bool_decide (c ∈ cutset) then drop_while_in cutset l' else l
  end.

(** [strings.TrimRight(s, cutset)]: every trailing byte of [s] that is in
    [cutset] is removed. *)
Definition TrimRight (s cutset : string) : string :=
  string_of_list_ascii
    (rev (drop_while_in (list_ascii_of_string cutset)
            (rev (list_ascii_of_string s)))).

Definition lower_ascii (c : ascii) : ascii :=
  let n := nat_of_ascii c in
  if ((65 <=? n) && (n <=? 90))%nat then ascii_of_nat (n + 32) else c.

(** [strings.ToLower] on the ASCII letters (the names the executor
    compares against are ASCII). *)
Definition ToLower (s : string) : string :=
  string_of_list_ascii (map lower_ascii (list_ascii_of_string s)).

(** [unicode.IsSpace] on ASCII: tab, line feed, vertical tab, form feed,
    carriage return and space. *)
Definition isSpace (c : ascii) : bool :=
  let n := nat_of_ascii c in
  ((9 <=? n) && (n <=? 13) || (n =? 32))%nat.

Fixpoint dropSpaces (l : list ascii) : list ascii :=
  match l with
  | [] => []
  | c :: l' => if isSpace c then dropSpaces l' else l
  end.

Definition trimSpaces (l : list ascii) : list ascii :=
  rev (dropSpaces (rev (dropSpaces l))).

(** [strings.TrimSpace] on ASCII text. *)
Definition TrimSpace (s : string) : string :=
  string_of_list_ascii (trimSpaces (list_ascii_of_string s)).

(** [TrimSpace] leaves nothing to trim. *)

Definition untrimmed (l : list ascii) : bool :=
  match l with
  | [] => false
  | c :: _ => isSpace c
  end.

Lemma dropSpaces_untrimmed (l : list ascii) : untrimmed (dropSpaces l) = false.
Proof.
  induction l as [|c l IH]; [reflexivity|]. cbn [dropSpaces].
  by destruct (isSpace c) eqn:Hc; [|cbn; rewrite Hc].
Qed.

Lemma dropSpaces_id (l : list ascii) : untrimmed l = false -> dropSpaces l = l.
Proof. destruct l as [|c l]; [reflexivity|]. cbn. by intros ->. Qed.

Lemma dropSpaces_snoc (l : list ascii) (x : ascii) :
  isSpace x = false -> dropSpaces (l ++ [x]) = dropSpaces l ++ [x].
Proof.
  intros Hx. induction l as [|c l IH]; cbn; [by rewrite Hx|].
  by destruct (isSpace c).
Qed.

Lemma trimSpaces_idem (l : list ascii) :
  trimSpaces (trimSpaces l) = trimSpaces l.
Proof.
  unfold trimSpaces.
  pose proof (dropSpaces_untrimmed l) as Hhead.
  destruct (dropSpaces l) as [|x a]; [reflexivity|].
  cbn in Hhead. cbn [rev].
  rewrite (dropSpaces_snoc _ _ Hhead), rev_unit.
  cbn [dropSpaces]. rewrite Hhead. cbn [rev].
  rewrite rev_involutive, dropSpaces_snoc by done.
  rewrite dropSpaces_id by apply dropSpaces_untrimmed.
  apply rev_unit.
Qed.

Lemma TrimSpace_idem (s : string) : TrimSpace (TrimSpace s) = TrimSpace s.
Proof.
  unfold TrimSpace.
  by rewrite list_ascii_of_string_of_list_ascii, trimSpaces_idem.
Qed.

(** ** Runes

    [for i, c := range s] walks the UTF-8 sequences of [s]: [i] is the
    byte index at which a sequence starts, [c] its code point, and a byte
    that starts no well-formed sequence counts as U+FFFD of width one. *)

Definition byteN (c : ascii) : N := N_of_ascii c.

Definition between (c : ascii) (lo hi : N) : bool :=
  ((lo <=? byteN c) && (byteN c <=? hi))%N.

Definition RuneError : N := 65533.

Definition low6 (c : ascii) : N := N.land (byteN c) 63.

Definition DecodeRune (bs : list ascii) : N * nat :=
  match bs with
  | [] => (RuneError, 0%nat)
  | b0 :: rest =>
      let x := byteN b0 in
      if (x <? 128)%N then (x, 1%nat)
      else if between b0 194 223 then
        match rest with
        | b1 :: _ =>
            if between b1 128 191
            then (N.lor (N.shiftl (N.land x 31) 6) (low6 b1), 2%nat)
            else (RuneError, 1%nat)
        | _ => (RuneError, 1%nat)
        end
      else if between b0 224 239 then
        let lo := if (x =? 224)%N then 160%N else 128%N in
        let hi := if (x =? 237)%N then 159%N else 191%N in
        match rest with
        | b1 :: b2 :: _ =>
            if between b1 lo hi && between b2 128 191
            then (N.lor (N.shiftl (N.land x 15) 12)
                    (N.lor (N.shiftl (low6 b1) 6) (low6 b2)), 3%nat)
            else (RuneError, 1%nat)
        | _ => (RuneError, 1%nat)
        end
      else if between b0 240 244 then
        let lo := if (x =? 240)%N then 144%N else 128%N in
        let hi := if (x =? 244)%N then 143%N else 191%N in
        match rest with
        | b1 :: b2 :: b3 :: _ =>
            if between b1 lo hi && between b2 128 191 && between b3 128 191
            then (N.lor (N.shiftl (N.land x 7) 18)
                    (N.lor (N.shiftl (low6 b1) 12)
                       (N.lor (N.shiftl (low6 b2) 6) (low6 b3))), 4%nat)
            else (RuneError, 1%nat)
        | _ => (RuneError, 1%nat)
        end
      else (RuneError, 1%nat)
  end.

(** The pairs [(i, c)] of [range]: [skip] counts the bytes still to pass
    over of the sequence in progress. *)
Fixpoint runes (i skip : nat) (bs : list ascii) : list (nat * N) :=
  match bs with
  | [] => []
  | b :: rest =>
      match skip with
      | S k => runes (S i) k rest
      | O => (i, (DecodeRune (b :: rest)).1)
             :: runes (S i) ((DecodeRune (b :: rest)).2 - 1) rest
      end
  end.

(** [byte(c)]: the conversion keeps the low eight bits. *)
Definition byte_of_rune (c : N) : ascii := ascii_of_N (c mod 256).

(** ** core/script: inline expressions *)

Module Script.

Local Open Scope nat_scope.

(** A compiled script is used through [ExecuteList] alone, so it is
    represented by what that call returns: the values, or an error. *)
Record CompiledScript := { ExecuteList : list string + string }.

Record inlineSegment := {
  rawScript : string;
  prefix : string;
  script : option CompiledScript }.

Record inlineSegmentGroup := { segments : list inlineSegment }.

Record inlineExpr := {
  expression : string;
  exprSegments : list inlineSegmentGroup }.

(** The two [strings.Builder]s are byte buffers: [WriteByte] adds a byte
    at the end, [Reset] empties, [String] reads the bytes as a string. *)
Record splitContext := {
  ctxPrefix : list ascii;
  ctxRawScript : list ascii;
  ctxSegments : list inlineSegment }.

(** The lines [syntaxError] writes after its heading. *)
Record SyntaxError := {
  message : string;
  inExpression : string;
  charIndex : nat }.

Definition isBlank (seg : inlineSegment) : bool :=
  String.eqb (TrimSpace (prefix seg)) EmptyString
  && String.eqb (TrimSpace (rawScript seg)) EmptyString.

Record scan := {
  isScript : bool;
  scriptStart : bool;
  includeSplitter : bool;
  groups : list inlineSegmentGroup;
  context : splitContext }.

Definition writePrefix (char : ascii) (st : scan) : scan :=
  {| isScript := isScript st; scriptStart := scriptStart st;
     includeSplitter := includeSplitter st; groups := groups st;
     context := {| ctxPrefix := ctxPrefix (context st) ++ [char];
                   ctxRawScript := ctxRawScript (context st);
                   ctxSegments := ctxSegments (context st) |} |}.

Definition writeRawScript (char : ascii) (st : scan) : scan :=
  {| isScript := isScript st; scriptStart := scriptStart st;
     includeSplitter := includeSplitter st; groups := groups st;
     context := {| ctxPrefix := ctxPrefix (context st);
                   ctxRawScript := ctxRawScript (context st) ++ [char];
                   ctxSegments := ctxSegments (context st) |} |}.

Definition startScan : scan :=
  {| isScript := false; scriptStart := false; includeSplitter := false;
     groups := [];
     context := {| ctxPrefix := []; ctxRawScript := [];
                   ctxSegments := [] |} |}.

Section Parsing.

(** [ParseScriptVar(trim, context.variables)]: the compiler of the script
    language. [splitSegments] never fills [variables], so the compiler is
    a function of the script text. *)
Variable ParseScriptVar : string -> CompiledScript + string.

Definition flushSegment (context : splitContext) : splitContext + string :=
  let seg := {| prefix := TrimSpace (string_of_list_ascii (ctxPrefix context));
                rawScript :=
                  TrimSpace (string_of_list_ascii (ctxRawScript context));
                script := None |} in
  let reset segs :=
    {| ctxPrefix := []; ctxRawScript := []; ctxSegments := segs |} in
  if negb (isBlank seg) then
    let trim := TrimSpace (rawScript seg) in
    if negb (String.eqb trim EmptyString) then
      match ParseScriptVar trim with
      | inr err => inr err
      | inl s =>
          inl (reset (ctxSegments context
                      ++ [{| prefix := prefix seg; rawScript := rawScript seg;
                             script := Some s |}]))
      end
    else inl (reset (ctxSegments context ++ [seg]))
  else inl (reset (ctxSegments context)).

Definition flushGroup (context : splitContext)
  : inlineSegmentGroup * splitContext + string :=
  match flushSegment context with
  | inr err => inr err
  | inl context' =>
      inl ({| segments := ctxSegments context' |},
           {| ctxPrefix := ctxPrefix context';
              ctxRawScript := ctxRawScript context';
              ctxSegments := [] |})
  end.

Definition syntaxError (exp : string) (msg : string) (index : nat)
  : SyntaxError :=
  {| message := msg; inExpression := exp; charIndex := index |}.

(** [exp[i]] compared with a byte; out of range there is nothing. *)
Definition byteAt (bytes : list ascii) (i : nat) (c : ascii) : bool :=
  match bytes !! i with
  | Some x => Ascii.eqb x c
  | None => false
  end.

(** The body of the loop of [splitSegments], at index [i] with
    [char = byte(c)]. *)
Definition splitStep (exp : string) (st : scan) (i : nat) (char : ascii)
  : scan + SyntaxError :=
  let bytes := list_ascii_of_string exp in
  let expLen := String.length exp in
  if Ascii.eqb char "$" then
    if negb (isScript st) then
      if (i <? expLen - 1) && byteAt bytes (i + 1) "{" then
        inl {| isScript := true; scriptStart := true;
               includeSplitter := includeSplitter st; groups := groups st;
               context := context st |}
      else inr (syntaxError exp
                  "'{' symbol is missing after the symbol '$'" i)
    else inr (syntaxError exp "should not appear symbol '$'" i)
  else if Ascii.eqb char "{" then
    if isScript st then
      if scriptStart st then
        inl {| isScript := isScript st; scriptStart := false;
               includeSplitter := includeSplitter st; groups := groups st;
               context := context st |}
      else inl (writeRawScript char st)
    else inl (writePrefix char st)
  else if Ascii.eqb char "." then
    if (i =? 0) || (i =? expLen - 1) then
      inr (syntaxError exp
             "should not appear symbol '.' at beginning and end of the inline expression"
             i)
    else if isScript st then inl (writeRawScript char st)
    else if includeSplitter st then
      inr (syntaxError exp "should not appear symbol '.'" i)
    else
      inl (writePrefix char
             {| isScript := isScript st; scriptStart := scriptStart st;
                includeSplitter := true; groups := groups st;
                context := context st |})
  else if Ascii.eqb char "}" then
    if isScript st then
      match flushSegment (context st) with
      | inr err => inr (syntaxError exp err i)
      | inl context' =>
          inl {| isScript := false; scriptStart := scriptStart st;
                 includeSplitter := includeSplitter st; groups := groups st;
                 context := context' |}
      end
    else inr (syntaxError exp "should not appear symbol '}'" i)
  else if Ascii.eqb char "," then
    if negb (isScript st) then
      match flushGroup (context st) with
      | inr err => inr (syntaxError exp err i)
      | inl (g, context') =>
          inl {| isScript := isScript st; scriptStart := scriptStart st;
                 includeSplitter := includeSplitter st;
                 groups := groups st ++ [g]; context := context' |}
      end
    else inl (writeRawScript char st)
  else if isScript st then inl (writeRawScript char st)
  else inl (writePrefix char st).

Fixpoint splitLoop (exp : string) (items : list (nat * ascii)) (st : scan)
  : scan + SyntaxError :=
  match items with
  | [] => inl st
  | (i, char) :: items' =>
      match splitStep exp st i char with
      | inr e => inr e
      | inl st' => splitLoop exp items' st'
      end
  end.

(** What [for i, c := range exp] hands to the body with [char := byte(c)]. *)
Definition rangeBytes (exp : string) : list (nat * ascii) :=
  map (fun ic => (ic.1, byte_of_rune ic.2))
      (runes 0 0 (list_ascii_of_string exp)).

Definition splitSegments (exp : string)
  : list inlineSegmentGroup + SyntaxError :=
  match splitLoop exp (rangeBytes exp) startScan with
  | inr e => inr e
  | inl st =>
      match flushGroup (context st) with
      | inr err => inr (syntaxError exp err (String.length exp))
      | inl (g, _) => inl (groups st ++ [g])
      end
  end.

Definition NewInlineExpression (expression : string)
  : inlineExpr + SyntaxError :=
  match splitSegments expression with
  | inr err => inr err
  | inl segments =>
      inl {| expression := expression; exprSegments := segments |}
  end.

End Parsing.

(** *** Flat

    [flatFill] and [outJoin] are defined in a file of the package that is
    not among the sources at hand; [Flat] is embedded over any two such
    functions. *)

Section Flattening.

Variable flatFill : string -> list string -> list string.
Variable outJoin : list string -> list string -> list string.

(** The inner loop of [Flat] over the segments of one group. *)
Fixpoint flatSegments (segs : list inlineSegment) (current : list string)
  : list string + string :=
  match segs with
  | [] => inl current
  | s :: segs' =>
      match script s with
      | Some sc =>
          match ExecuteList sc with
          | inr err => inr err
          | inl values =>
              flatSegments segs'
                (outJoin current (flatFill (prefix s) values))
          end
      | None =>
          flatSegments segs'
            (if String.eqb (prefix s) EmptyString then current
             else current ++ [prefix s])
      end
  end.

(** The outer loop, with the keys of the map [set] as a finite set. *)
Fixpoint flatGroups (gs : list inlineSegmentGroup) (set : gset string)
  : gset string + string :=
  match gs with
  | [] => inl set
  | g :: gs' =>
      match flatSegments (segments g) [] with
      | inr err => inr err
      | inl current => flatGroups gs' (set ∪ list_to_set current)
      end
  end.

(** [Flat] returns the keys of [set] in the order the map iteration
    yields them, which Go leaves open: the result is the set of keys. *)
Definition Flat (i : inlineExpr) : gset string + string :=
  flatGroups (exprSegments i) ∅.

(** **** A literal at the end of a group *)

Lemma flatSegments_app (segs segs' : list inlineSegment)
    (current : list string) :
  flatSegments (segs ++ segs') current
  = match flatSegments segs current with
    | inr err => inr err
    | inl current' => flatSegments segs' current'
    end.
Proof.
  revert current. induction segs as [|s segs IH]; intros current;
    [reflexivity|].
  cbn [app flatSegments].
  destruct (script s) as [sc|]; [|apply IH].
  destruct (ExecuteList sc); [apply IH|reflexivity].
Qed.

Lemma flatGroups_subseteq (gs : list inlineSegmentGroup)
    (set set' : gset string) :
  flatGroups gs set = inl set' -> set ⊆ set'.
Proof.
  revert set. induction gs as [|g gs IH]; intros set Hflat;
    cbn [flatGroups] in Hflat.
  - by injection Hflat as ->.
  - destruct (flatSegments (segments g) []) as [current|]; [|discriminate].
    apply IH in Hflat. set_solver.
Qed.

Lemma flatGroups_group (gs : list inlineSegmentGroup) (g : inlineSegmentGroup)
    (set set' : gset string) :
  g ∈ gs -> flatGroups gs set = inl set' ->
  exists current,
    flatSegments (segments g) [] = inl current
    /\ forall x, x ∈ current -> x ∈ set'.
Proof.
  revert set. induction gs as [|g' gs IH]; intros set Hin Hflat.
  - by apply elem_of_nil in Hin.
  - cbn [flatGroups] in Hflat.
    destruct (flatSegments (segments g') []) as [current|] eqn:Hsegs;
      [|discriminate].
    apply elem_of_cons in Hin as [->|Hin]; [|by apply (IH _ Hin Hflat)].
    exists current. split; [exact Hsegs|].
    intros x Hx. apply flatGroups_subseteq in Hflat. set_solver.
Qed.

(** C1, where the code departs from it: when a group ends with a segment
    that has no script and a prefix that is not empty, [Flat] puts that
    prefix into the result as a string of its own, whatever the segments
    before it yield; it is appended to the strings of the group, not
    joined to them as a factor of the product. *)
Theorem Flat_trailing_literal (e : inlineExpr) (g : inlineSegmentGroup)
    (segs : list inlineSegment) (literal : inlineSegment)
    (set : gset string) :
  g ∈ exprSegments e ->
  segments g = segs ++ [literal] ->
  script literal = None ->
  prefix literal <> EmptyString ->
  Flat e = inl set ->
  prefix literal ∈ set.
Proof.
  intros Hg Hsegs Hnone Hprefix Hflat.
  destruct (flatGroups_group _ _ _ _ Hg Hflat) as (current & Hcur & Hsub).
  apply Hsub. rewrite Hsegs, flatSegments_app in Hcur.
  destruct (flatSegments segs []) as [before|]; [|discriminate].
  cbn [flatSegments] in Hcur. rewrite Hnone in Hcur.
  apply String.eqb_neq in Hprefix. rewrite Hprefix in Hcur.
  injection Hcur as <-. apply elem_of_app. right. apply list_elem_of_here.
Qed.

(** **** The result, group by group *)

Lemma flatGroups_elements (gs : list inlineSegmentGroup)
    (set set' : gset string) :
  flatGroups gs set = inl set' ->
  forall x,
    x ∈ set' <->
    x ∈ set
    \/ exists g current,
         g ∈ gs /\ flatSegments (segments g) [] = inl current /\ x ∈ current.
Proof.
  revert set. induction gs as [|g gs IH]; intros set Hflat x;
    cbn [flatGroups] in Hflat.
  - injection Hflat as <-. split; [by left|].
    intros [Hx|(g & current & Hin & _)]; [done|].
    by apply elem_of_nil in Hin.
  - destruct (flatSegments (segments g) []) as [current|] eqn:Hsegs;
      [|discriminate].
    rewrite (IH _ Hflat x), elem_of_union, elem_of_list_to_set. split.
    + intros [[Hx|Hx]|(g' & current' & Hin & Hcur & Hx)].
      * by left.
      * right. exists g, current. split; [apply list_elem_of_here|done].
      * right. exists g', current'.
        split; [by apply list_elem_of_further|done].
    + intros [Hx|(g' & current' & Hin & Hcur & Hx)]; [by left; left|].
      apply elem_of_cons in Hin as [->|Hin].
      * left. right. rewrite Hsegs in Hcur. by injection Hcur as ->.
      * right. by exists g', current'.
Qed.

(** X4: when [Flat] returns a set, a string is in it exactly when the
    inner loop yields it for one of the groups; no group is left out and
    nothing comes from elsewhere. *)
Theorem Flat_elements (e : inlineExpr) (set : gset string) :
  Flat e = inl set ->
  forall x,
    x ∈ set <->
    exists g current,
      g ∈ exprSegments e
      /\ flatSegments (segments g) [] = inl current /\ x ∈ current.
Proof.
  intros Hflat x. rewrite (flatGroups_elements _ _ _ Hflat x).
  split; [intros [Hx|Hx]; [by apply elem_of_empty in Hx|done]|by right].
Qed.

Lemma flatGroups_Permutation (gs gs' : list inlineSegmentGroup) :
  gs ≡ₚ gs' ->
  forall set set' : gset string,
  flatGroups gs set = inl set' -> flatGroups gs' set = inl set'.
Proof.
  induction 1 as [|g gs gs' _ IH|g1 g2 gs|gs1 gs2 gs3 _ IH1 _ IH2];
    intros set set' Hflat.
  - exact Hflat.
  - cbn [flatGroups] in *.
    destruct (flatSegments (segments g) []); [by apply IH|done].
  - cbn [flatGroups] in *.
    destruct (flatSegments (segments g1) []) as [c1|],
      (flatSegments (segments g2) []) as [c2|]; try discriminate.
    rewrite <- Hflat. f_equal. apply set_eq. intros x.
    rewrite !elem_of_union. tauto.
  - by apply IH2, IH1.
Qed.

(** X5: the order of the groups does not matter to the set [Flat]
    returns: an expression with the same groups in another order
    flattens to the same set. *)
Theorem Flat_group_order (e e' : inlineExpr) (set : gset string) :
  exprSegments e ≡ₚ exprSegments e' ->
  Flat e = inl set -> Flat e' = inl set.
Proof. intros Hperm. by apply flatGroups_Permutation. Qed.

(** **** Failing scripts *)

Definition scriptFails (e : inlineExpr) (err : string) : Prop :=
  exists g seg sc,
    g ∈ exprSegments e /\ seg ∈ segments g
    /\ script seg = Some sc /\ ExecuteList sc = inr err.

Lemma flatSegments_error (segs : list inlineSegment) (current : list string)
    (err : string) :
  flatSegments segs current = inr err ->
  exists seg sc,
    seg ∈ segs /\ script seg = Some sc /\ ExecuteList sc = inr err.
Proof.
  revert current. induction segs as [|s segs IH]; intros current;
    cbn [flatSegments]; [discriminate|].
  destruct (script s) as [sc|] eqn:Hsc.
  - destruct (ExecuteList sc) as [values|err'] eqn:Hrun.
    + intros Hrest. destruct (IH _ Hrest) as (seg & sc' & Hin & Hs & Hr).
      exists seg, sc'. split; [by apply list_elem_of_further|done].
    + intros [= <-]. exists s, sc. split; [apply list_elem_of_here|done].
  - intros Hrest. destruct (IH _ Hrest) as (seg & sc' & Hin & Hs & Hr).
    exists seg, sc'. split; [by apply list_elem_of_further|done].
Qed.

Lemma flatSegments_fails (segs : list inlineSegment) (current : list string)
    (seg : inlineSegment) (sc : CompiledScript) (err : string) :
  seg ∈ segs -> script seg = Some sc -> ExecuteList sc = inr err ->
  exists err', flatSegments segs current = inr err'.
Proof.
  intros Hin Hsc Hrun. revert current.
  induction segs as [|s segs IH]; intros current;
    [by apply elem_of_nil in Hin|].
  cbn [flatSegments]. apply elem_of_cons in Hin as [<-|Hin].
  - rewrite Hsc, Hrun. by exists err.
  - destruct (script s) as [sc'|]; [|by apply IH].
    destruct (ExecuteList sc') as [values|err']; [by apply IH|by exists err'].
Qed.

Lemma flatGroups_error (gs : list inlineSegmentGroup) (set : gset string)
    (err : string) :
  flatGroups gs set = inr err ->
  exists g, g ∈ gs /\ flatSegments (segments g) [] = inr err.
Proof.
  revert set. induction gs as [|g gs IH]; intros set; cbn [flatGroups];
    [discriminate|].
  destruct (flatSegments (segments g) []) as [current|err'] eqn:Hsegs.
  - intros Hrest. destruct (IH _ Hrest) as (g' & Hin & Hg').
    exists g'. split; [by apply list_elem_of_further|done].
  - intros [= <-]. exists g. split; [apply list_elem_of_here|done].
Qed.

Lemma flatGroups_fails (gs : list inlineSegmentGroup) (set : gset string)
    (g : inlineSegmentGroup) (err : string) :
  g ∈ gs -> flatSegments (segments g) [] = inr err ->
  exists err', flatGroups gs set = inr err'.
Proof.
  intros Hin Hg. revert set.
  induction gs as [|g' gs IH]; intros set; [by apply elem_of_nil in Hin|].
  cbn [flatGroups]. apply elem_of_cons in Hin as [<-|Hin].
  - rewrite Hg. by exists err.
  - destruct (flatSegments (segments g') []) as [current|err'];
      [by apply IH|by exists err'].
Qed.

(** X6: [Flat] fails exactly when some script of the expression fails,
    and the error it returns is the error of one of the failing scripts,
    unchanged. *)
Theorem Flat_fails (e : inlineExpr) :
  ((exists err, Flat e = inr err) <-> exists err, scriptFails e err)
  /\ forall err, Flat e = inr err -> scriptFails e err.
Proof.
  assert (forall err, Flat e = inr err -> scriptFails e err) as Hfrom.
  { intros err Hflat.
    destruct (flatGroups_error _ _ _ Hflat) as (g & Hin & Hg).
    destruct (flatSegments_error _ _ _ Hg) as (seg & sc & Hseg & Hsc & Hrun).
    by exists g, seg, sc. }
  split; [|exact Hfrom]. split.
  - intros [err Hflat]. exists err. by apply Hfrom.
  - intros (err & g & seg & sc & Hin & Hseg & Hsc & Hrun).
    destruct (flatSegments_fails _ [] _ _ _ Hseg Hsc Hrun) as [err' Hg].
    by apply (flatGroups_fails _ _ g err').
Qed.

End Flattening.

(** Modelled from the spec: the factor a segment with a script brings
    to the product of its group is "prefix + script-value", for each
    value of the script. *)
Definition flatFill (prefix : string) (values : list string) : list string :=
  map (String.append prefix) values.

(** Modelled from the spec: one more factor of the "cross-product ...
    across that group's segments"; the first factor of a group stands
    for itself. *)
Definition outJoin (current segStrings : list string) : list string :=
  match current with
  | [] => segStrings
  | _ => c ← current; v ← segStrings; [String.append c v]
  end.

(** The set C1 describes: per group the product of the factors of its
    segments, a segment without a script having its prefix as its one
    factor; then the union over the groups. *)
Definition factor (s : inlineSegment) : list string + string :=
  match script s with
  | Some sc =>
      match ExecuteList sc with
      | inr err => inr err
      | inl values => inl (map (String.append (prefix s)) values)
      end
  | None => inl [prefix s]
  end.

Fixpoint product (segs : list inlineSegment) : list string + string :=
  match segs with
  | [] => inl [EmptyString]
  | s :: segs' =>
      match factor s, product segs' with
      | inl f, inl rest => inl (x ← f; y ← rest; [String.append x y])
      | inr err, _ => inr err
      | _, inr err => inr err
      end
  end.

Fixpoint unionOfProducts (gs : list inlineSegmentGroup)
  : gset string + string :=
  match gs with
  | [] => inl ∅
  | g :: gs' =>
      match product (segments g), unionOfProducts gs' with
      | inl l, inl set => inl (list_to_set l ∪ set)
      | inr err, _ => inr err
      | _, inr err => inr err
      end
  end.

(** *** Where [splitSegments] reports a syntax error

    The conditions are stated on positions of the expression, with no
    reference to the loop: what lies to the left of a position decides
    whether the position is inside a script, whether a [.] outside a
    script came before, and which script text is open. *)

Section Syntax.

Variable ParseScriptVar : string -> CompiledScript + string.

Definition isToggle (c : ascii) : bool :=
  Ascii.eqb c "$" || Ascii.eqb c "}".

(** Position [i] is inside a script: of the [$] and [}] to its left, the
    nearest is a [$]. *)
Definition inScript (bytes : list ascii) (i : nat) : bool :=
  match find isToggle (rev (take i bytes)) with
  | Some c => Ascii.eqb c "$"
  | None => false
  end.

(** Some [.] outside a script lies to the left of position [i], anywhere
    in the expression. *)
Definition dotOutsideBefore (bytes : list ascii) (i : nat) : bool :=
  existsb (fun j => byteAt bytes j "." && negb (inScript bytes j)) (seq 0 i).

Fixpoint upTo (c : ascii) (l : list ascii) : list ascii :=
  match l with
  | [] => []
  | x :: l' => if Ascii.eqb x c then [] else x :: upTo c l'
  end.

(** The bytes between the nearest [$] to the left of position [i] and
    [i], read from right to left. *)
Definition sinceDollar (bytes : list ascii) (i : nat) : list ascii :=
  upTo "$" (rev (take i bytes)).

(** The text of the script open at position [i]: what follows its [${]. *)
Definition scriptText (bytes : list ascii) (i : nat) : list ascii :=
  drop 1 (rev (sinceDollar bytes i)).

(** The script text is not blank and the compiler refuses it. *)
Definition compileFails (raw : list ascii) : bool :=
  let trim := TrimSpace (TrimSpace (string_of_list_ascii raw)) in
  negb (String.eqb trim EmptyString)
  && match ParseScriptVar trim with
     | inr _ => true
     | inl _ => false
     end.

(** The positions at which the parser finds fault, [length bytes] being
    the position of the end of the expression. *)
Definition offence (bytes : list ascii) (i : nat) : bool :=
  match bytes !! i with
  | Some c =>
      if Ascii.eqb c "$" then
        inScript bytes i || negb (byteAt bytes (i + 1) "{")
      else if Ascii.eqb c "}" then
        negb (inScript bytes i) || compileFails (scriptText bytes i)
      else if Ascii.eqb c "." then
        (i =? 0) || (i =? length bytes - 1)
        || negb (inScript bytes i) && dotOutsideBefore bytes i
      else false
  | None =>
      (i =? length bytes) && inScript bytes i
      && compileFails (scriptText bytes i)
  end.

Definition firstOffence (bytes : list ascii) (i : nat) : Prop :=
  offence bytes i = true /\ forall j, j < i -> offence bytes j = false.

Definition isASCII (c : ascii) : bool := (byteN c <? 128)%N.

Definition asciiOnly (exp : string) : bool :=
  forallb isASCII (list_ascii_of_string exp).

(** **** One position further *)

Lemma inScript_S (bytes : list ascii) (i : nat) (c : ascii) :
  bytes !! i = Some c ->
  inScript bytes (S i) =
  if Ascii.eqb c "$" then true
  else if Ascii.eqb c "}" then false else inScript bytes i.
Proof.
  intros Hc. unfold inScript.
  rewrite (take_S_r _ _ _ Hc), rev_unit. cbn [find]. unfold isToggle.
  destruct (Ascii.eqb_spec c "$") as [->|_]; [reflexivity|].
  destruct (Ascii.eqb_spec c "}") as [->|_]; reflexivity.
Qed.

Lemma sinceDollar_S (bytes : list ascii) (i : nat) (c : ascii) :
  bytes !! i = Some c ->
  sinceDollar bytes (S i) =
  if Ascii.eqb c "$" then [] else c :: sinceDollar bytes i.
Proof.
  intros Hc. unfold sinceDollar.
  rewrite (take_S_r _ _ _ Hc), rev_unit. reflexivity.
Qed.

Lemma dotOutsideBefore_S (bytes : list ascii) (i : nat) :
  dotOutsideBefore bytes (S i) =
  dotOutsideBefore bytes i
  || byteAt bytes i "." && negb (inScript bytes i).
Proof.
  unfold dotOutsideBefore.
  rewrite seq_S, existsb_app. cbn [existsb plus].
  by rewrite orb_false_r.
Qed.

Lemma scriptText_S_start (bytes : list ascii) (i : nat) (c : ascii) :
  bytes !! i = Some c -> sinceDollar bytes i = [] ->
  scriptText bytes (S i) = [].
Proof.
  intros Hc Hs. unfold scriptText.
  rewrite (sinceDollar_S _ _ _ Hc), Hs.
  by destruct (Ascii.eqb c "$").
Qed.

Lemma scriptText_S_write (bytes : list ascii) (i : nat) (c : ascii) :
  bytes !! i = Some c -> Ascii.eqb c "$" = false ->
  sinceDollar bytes i <> [] ->
  scriptText bytes (S i) = scriptText bytes i ++ [c].
Proof.
  intros Hc Hd Hs. unfold scriptText.
  rewrite (sinceDollar_S _ _ _ Hc), Hd. cbn [rev].
  destruct (rev (sinceDollar bytes i)) as [|x l] eqn:Hr; [|reflexivity].
  apply (f_equal (@rev ascii)) in Hr. rewrite rev_involutive in Hr.
  by destruct Hs.
Qed.

Lemma byteAt_lookup (bytes : list ascii) (i : nat) (c x : ascii) :
  bytes !! i = Some c -> byteAt bytes i x = Ascii.eqb c x.
Proof. intros Hc. unfold byteAt. by rewrite Hc. Qed.

(** **** What [flushSegment] decides *)

Lemma flushSegment_cases (ctx : splitContext) :
  match flushSegment ParseScriptVar ctx with
  | inr err => compileFails (ctxRawScript ctx) = true
  | inl ctx' =>
      compileFails (ctxRawScript ctx) = false
      /\ ctxPrefix ctx' = [] /\ ctxRawScript ctx' = []
  end.
Proof.
  unfold flushSegment, isBlank, compileFails. cbn [prefix rawScript].
  destruct (String.eqb
              (TrimSpace (TrimSpace (string_of_list_ascii (ctxRawScript ctx))))
              EmptyString) eqn:Hblank.
  - rewrite andb_true_r. cbn [negb andb].
    by destruct (negb _).
  - rewrite andb_false_r. cbn [negb andb].
    by destruct (ParseScriptVar _).
Qed.

Lemma flushSegment_no_script (ctx : splitContext) :
  ctxRawScript ctx = [] ->
  exists ctx', flushSegment ParseScriptVar ctx = inl ctx'
               /\ ctxPrefix ctx' = [] /\ ctxRawScript ctx' = [].
Proof.
  intros Hraw. pose proof (flushSegment_cases ctx) as Hc.
  destruct (flushSegment ParseScriptVar ctx) as [ctx'|err].
  - exists ctx'. by destruct Hc.
  - rewrite Hraw in Hc. by vm_compute in Hc.
Qed.

(** **** What the loop knows at position [i] *)

Record keeps (bytes : list ascii) (i : nat) (st : scan) : Prop := {
  keeps_isScript : isScript st = inScript bytes i;
  keeps_splitter : includeSplitter st = dotOutsideBefore bytes i;
  keeps_raw :
    ctxRawScript (context st)
    = if isScript st then scriptText bytes i else [];
  keeps_start :
    scriptStart st = true ->
    isScript st = true /\ bytes !! i = Some "{"%char
    /\ sinceDollar bytes i = [];
  keeps_open :
    isScript st = true -> scriptStart st = false ->
    sinceDollar bytes i <> [] }.

Ltac scan_fields :=
  unfold writeRawScript, writePrefix;
  cbn [isScript includeSplitter scriptStart groups context
       ctxPrefix ctxRawScript ctxSegments].

Lemma keeps_startScan (bytes : list ascii) : keeps bytes 0 startScan.
Proof. by split. Qed.

Lemma length_bytes (exp : string) :
  String.length exp = length (list_ascii_of_string exp).
Proof. induction exp as [|c exp IH]; [reflexivity|]. cbn. by rewrite IH. Qed.

Lemma scriptStart_brace (bytes : list ascii) (i : nat) (c : ascii)
    (st : scan) :
  bytes !! i = Some c -> keeps bytes i st ->
  Ascii.eqb c "{" = false -> scriptStart st = false.
Proof.
  intros Hc Hk Hne. destruct (scriptStart st) eqn:Hs; [|reflexivity].
  destruct (keeps_start _ _ _ Hk Hs) as (_ & Hb & _).
  rewrite Hc in Hb. injection Hb as ->. discriminate Hne.
Qed.

Lemma keeps_writeRawScript (bytes : list ascii) (i : nat) (c : ascii)
    (st : scan) :
  bytes !! i = Some c -> keeps bytes i st ->
  isScript st = true -> scriptStart st = false ->
  Ascii.eqb c "$" = false -> Ascii.eqb c "}" = false ->
  keeps bytes (S i) (writeRawScript c st).
Proof.
  intros Hc Hk Hs Hstart Hd Hb.
  pose proof (keeps_open _ _ _ Hk Hs Hstart) as Hopen.
  split; scan_fields.
  - rewrite (inScript_S _ _ _ Hc), Hd, Hb. apply Hk.
  - rewrite dotOutsideBefore_S, <- (keeps_isScript _ _ _ Hk), Hs.
    rewrite andb_false_r, orb_false_r. apply Hk.
  - rewrite (keeps_raw _ _ _ Hk), Hs.
    by rewrite (scriptText_S_write _ _ _ Hc Hd Hopen).
  - by rewrite Hstart.
  - intros _ _. by rewrite (sinceDollar_S _ _ _ Hc), Hd.
Qed.

Lemma keeps_writePrefix (bytes : list ascii) (i : nat) (c : ascii)
    (st : scan) :
  bytes !! i = Some c -> keeps bytes i st ->
  isScript st = false ->
  Ascii.eqb c "$" = false -> Ascii.eqb c "}" = false ->
  Ascii.eqb c "." = false ->
  keeps bytes (S i) (writePrefix c st).
Proof.
  intros Hc Hk Hs Hd Hb Hdot.
  split; scan_fields.
  - rewrite (inScript_S _ _ _ Hc), Hd, Hb. apply Hk.
  - rewrite dotOutsideBefore_S, (byteAt_lookup _ _ _ _ Hc), Hdot.
    rewrite orb_false_r. apply Hk.
  - rewrite (keeps_raw _ _ _ Hk). by rewrite Hs.
  - intros Hstart. destruct (keeps_start _ _ _ Hk Hstart) as (Hs' & _).
    by rewrite Hs in Hs'.
  - by rewrite Hs.
Qed.

(** **** One turn of the loop *)

Definition reportedAt (exp : string) (i : nat) (e : SyntaxError) : Prop :=
  e = syntaxError exp (message e) i.

Lemma splitStep_keeps (exp : string) (i : nat) (c : ascii) (st : scan) :
  list_ascii_of_string exp !! i = Some c ->
  keeps (list_ascii_of_string exp) i st ->
  match splitStep ParseScriptVar exp st i c with
  | inr e => reportedAt exp i e /\ offence (list_ascii_of_string exp) i = true
  | inl st' =>
      offence (list_ascii_of_string exp) i = false
      /\ keeps (list_ascii_of_string exp) (S i) st'
  end.
Proof.
  intros Hc Hk. unfold splitStep, offence. rewrite Hc, length_bytes.
  set (bytes := list_ascii_of_string exp) in *.
  pose proof (keeps_isScript _ _ _ Hk) as Hin.
  pose proof (keeps_raw _ _ _ Hk) as Hraw.
  pose proof (scriptStart_brace _ _ _ _ Hc Hk) as Hbrace.
  rewrite <- Hin.
  destruct (Ascii.eqb_spec c "$") as [->|Hd].
  { (* $ *)
    destruct (isScript st) eqn:Hs; cbn [negb orb].
    { by split. }
    destruct (byteAt bytes (i + 1) "{") eqn:Hnext.
    - assert ((i <? length bytes - 1) = true) as ->.
      { unfold byteAt in Hnext.
        destruct (bytes !! (i + 1)) eqn:Hl; [|discriminate].
        apply lookup_lt_Some in Hl. apply Nat.ltb_lt. lia. }
      cbn [andb negb]. split; [reflexivity|].
      split; scan_fields.
      + by rewrite (inScript_S _ _ _ Hc).
      + rewrite dotOutsideBefore_S, (byteAt_lookup _ _ _ _ Hc).
        cbn. rewrite orb_false_r. apply Hk.
      + rewrite Hraw. unfold scriptText.
        by rewrite (sinceDollar_S _ _ _ Hc).
      + intros _. split; [reflexivity|]. split.
        * unfold byteAt in Hnext. rewrite Nat.add_1_r in Hnext.
          destruct (bytes !! S i) as [x|]; [|discriminate].
          apply Ascii.eqb_eq in Hnext. by rewrite Hnext.
        * by rewrite (sinceDollar_S _ _ _ Hc).
      + discriminate.
    - rewrite andb_false_r. by split. }
  apply Ascii.eqb_neq in Hd.
  destruct (Ascii.eqb_spec c "{") as [->|Hb].
  { (* { *)
    cbn [Ascii.eqb]. cbn.
    destruct (isScript st) eqn:Hs.
    - destruct (scriptStart st) eqn:Hstart.
      + split; [reflexivity|].
        destruct (keeps_start _ _ _ Hk Hstart) as (_ & _ & Hsince).
        split; scan_fields.
        * rewrite (inScript_S _ _ _ Hc). by cbn.
        * rewrite dotOutsideBefore_S, (byteAt_lookup _ _ _ _ Hc).
          cbn. rewrite orb_false_r. apply Hk.
        * rewrite Hraw, (scriptText_S_start _ _ _ Hc Hsince).
          unfold scriptText. by rewrite Hsince.
        * discriminate.
        * intros _ _. by rewrite (sinceDollar_S _ _ _ Hc).
      + split; [reflexivity|].
        by apply keeps_writeRawScript.
    - split; [reflexivity|].
      by apply keeps_writePrefix. }
  apply Ascii.eqb_neq in Hb. specialize (Hbrace eq_refl).
  destruct (Ascii.eqb_spec c ".") as [->|Hdot].
  { (* . *)
    cbn [Ascii.eqb]. cbn.
    destruct ((i =? 0) || (i =? length bytes - 1)) eqn:Hends.
    { by split. }
    cbn [orb].
    destruct (isScript st) eqn:Hs; cbn [negb andb].
    { split; [reflexivity|]. by apply keeps_writeRawScript. }
    rewrite <- (keeps_splitter _ _ _ Hk).
    destruct (includeSplitter st) eqn:Hsplit.
    { by split. }
    split; [reflexivity|].
    split; scan_fields.
    - rewrite (inScript_S _ _ _ Hc). cbn. exact Hin.
    - rewrite dotOutsideBefore_S, (byteAt_lookup _ _ _ _ Hc), <- Hin.
      cbn. by rewrite orb_true_r.
    - by rewrite Hraw.
    - by rewrite Hbrace.
    - discriminate. }
  apply Ascii.eqb_neq in Hdot.
  destruct (Ascii.eqb_spec c "}") as [->|Hclose].
  { (* } *)
    destruct (isScript st) eqn:Hs; cbn [negb orb]; [|by split].
    pose proof (flushSegment_cases (context st)) as Hflush.
    rewrite Hraw in Hflush.
    destruct (flushSegment ParseScriptVar (context st)) as [ctx'|err].
    - destruct Hflush as (Hok & _ & Hraw').
      split; [exact Hok|].
      split; scan_fields.
      + by rewrite (inScript_S _ _ _ Hc).
      + rewrite dotOutsideBefore_S, (byteAt_lookup _ _ _ _ Hc).
        cbn. rewrite orb_false_r. apply Hk.
      + exact Hraw'.
      + by rewrite Hbrace.
      + discriminate.
    - split; [reflexivity|exact Hflush]. }
  apply Ascii.eqb_neq in Hclose.
  destruct (Ascii.eqb c ",") eqn:Hcomma.
  { (* , *)
    destruct (isScript st) eqn:Hs; cbn [negb].
    { split; [reflexivity|]. by apply keeps_writeRawScript. }
    unfold flushGroup.
    destruct (flushSegment_no_script (context st)) as (ctx' & -> & _ & Hraw');
      [by rewrite Hraw|].
    split; [reflexivity|].
    split; scan_fields.
    - rewrite (inScript_S _ _ _ Hc), Hd, Hclose. exact Hin.
    - rewrite dotOutsideBefore_S, (byteAt_lookup _ _ _ _ Hc), Hdot.
      rewrite orb_false_r. apply Hk.
    - exact Hraw'.
    - by rewrite Hbrace.
    - discriminate. }
  destruct (isScript st) eqn:Hs.
  - split; [reflexivity|]. by apply keeps_writeRawScript.
  - split; [reflexivity|]. by apply keeps_writePrefix.
Qed.


(** **** The whole loop, on ASCII text *)

Lemma DecodeRune_ascii (c : ascii) (rest : list ascii) :
  isASCII c = true -> DecodeRune (c :: rest) = (byteN c, 1).
Proof. unfold DecodeRune, isASCII. by intros ->. Qed.

Lemma byte_of_rune_byteN (c : ascii) : byte_of_rune (byteN c) = c.
Proof.
  unfold byte_of_rune, byteN.
  rewrite N.mod_small by apply N_ascii_bounded.
  apply ascii_N_embedding.
Qed.

Lemma splitLoop_keeps (exp : string) (rest : list ascii) :
  forall (pre : list ascii) (st : scan),
  list_ascii_of_string exp = pre ++ rest ->
  forallb isASCII rest = true ->
  keeps (list_ascii_of_string exp) (length pre) st ->
  (forall j, j < length pre -> offence (list_ascii_of_string exp) j = false) ->
  match splitLoop ParseScriptVar exp
          (map (fun ic => (ic.1, byte_of_rune ic.2))
               (runes (length pre) 0 rest)) st with
  | inr e =>
      exists k, reportedAt exp k e
                /\ firstOffence (list_ascii_of_string exp) k
  | inl st' =>
      keeps (list_ascii_of_string exp)
            (length (list_ascii_of_string exp)) st'
      /\ forall j, j < length (list_ascii_of_string exp) ->
                   offence (list_ascii_of_string exp) j = false
  end.
Proof.
  induction rest as [|c rest IH]; intros pre st Hsplit Hascii Hk Hclean.
  - rewrite Hsplit, app_nil_r in *. by split.
  - cbn [forallb] in Hascii. apply andb_prop in Hascii as [Hc Hrest].
    cbn [runes map]. rewrite (DecodeRune_ascii _ _ Hc).
    cbn [fst snd splitLoop Nat.sub]. rewrite byte_of_rune_byteN.
    assert (list_ascii_of_string exp !! length pre = Some c) as Hat.
    { rewrite Hsplit. by apply list_lookup_middle. }
    pose proof (splitStep_keeps exp (length pre) c st Hat Hk) as Hstep.
    destruct (splitStep ParseScriptVar exp st (length pre) c) as [st'|e].
    + destruct Hstep as [Hno Hk'].
      specialize (IH (pre ++ [c]) st').
      rewrite length_app, Nat.add_1_r in IH. apply IH; try done.
      * by rewrite <- app_assoc.
      * intros j Hj. destruct (decide (j = length pre)) as [->|Hne];
          [exact Hno|apply Hclean; lia].
    + destruct Hstep as [Hat' Hoff]. exists (length pre). by repeat split.
Qed.

Lemma compileFails_nil : compileFails [] = false.
Proof. reflexivity. Qed.

Lemma splitSegments_result (exp : string) :
  asciiOnly exp = true ->
  match splitSegments ParseScriptVar exp with
  | inr e =>
      exists k, reportedAt exp k e
                /\ firstOffence (list_ascii_of_string exp) k
  | inl _ => forall j, offence (list_ascii_of_string exp) j = false
  end.
Proof.
  intros Hascii. unfold splitSegments, rangeBytes.
  pose proof (splitLoop_keeps exp (list_ascii_of_string exp) [] startScan
                eq_refl Hascii (keeps_startScan _)) as Hloop.
  cbn [length] in Hloop.
  destruct (splitLoop _ _ _ _) as [st|e];
    [|apply Hloop; intros j Hj; lia].
  destruct Hloop as [Hk Hclean]; [intros j Hj; lia|].
  set (bytes := list_ascii_of_string exp) in *.
  assert (offence bytes (length bytes)
          = isScript st && compileFails (ctxRawScript (context st))) as Hend.
  { unfold offence. rewrite (lookup_ge_None_2 _ _ (Nat.le_refl _)).
    rewrite Nat.eqb_refl, <- (keeps_isScript _ _ _ Hk), (keeps_raw _ _ _ Hk).
    by destruct (isScript st). }
  assert (isScript st = false ->
          compileFails (ctxRawScript (context st)) = false) as Hout.
  { intros Hs. by rewrite (keeps_raw _ _ _ Hk), Hs. }
  unfold flushGroup.
  pose proof (flushSegment_cases (context st)) as Hflush.
  destruct (flushSegment ParseScriptVar (context st)) as [ctx'|err].
  - destruct Hflush as [Hok _]. intros j.
    destruct (Nat.lt_trichotomy j (length bytes)) as [Hj|[->|Hj]].
    + by apply Hclean.
    + rewrite Hend, Hok. apply andb_false_r.
    + unfold offence. rewrite (lookup_ge_None_2 _ _ (Nat.lt_le_incl _ _ Hj)).
      apply Nat.lt_neq, Nat.neq_sym, Nat.eqb_neq in Hj. by rewrite Hj.
  - exists (length bytes). split.
    + unfold reportedAt. by rewrite length_bytes.
    + split; [|exact Hclean].
      rewrite Hend, Hflush.
      destruct (isScript st); [reflexivity|].
      rewrite Hout in Hflush; done.
Qed.

(** C3, as the code has it, for an expression of ASCII bytes:
    [splitSegments] returns a syntax error with char index [i] exactly
    when [i] is the leftmost position at fault, and returns the groups
    exactly when no position is at fault. A position is at fault when it
    holds a [$] that is inside a script or is not immediately followed by
    [{]; a [}] outside a script; a [}] closing a script whose text the
    compiler refuses; a [.] at position 0 or len-1, inside a script or
    not; a [.] outside a script with an earlier [.] outside a script
    anywhere in the expression, segments and groups making no difference;
    or when it is the end of an expression that leaves open a script whose
    text the compiler refuses. *)
Theorem splitSegments_syntax_error (exp : string) :
  asciiOnly exp = true ->
  (forall i,
     (exists msg,
        splitSegments ParseScriptVar exp = inr (syntaxError exp msg i))
     <-> firstOffence (list_ascii_of_string exp) i)
  /\ ((exists gs, splitSegments ParseScriptVar exp = inl gs)
      <-> forall i, offence (list_ascii_of_string exp) i = false).
Proof.
  intros Hascii. pose proof (splitSegments_result exp Hascii) as Hres.
  destruct (splitSegments ParseScriptVar exp) as [gs|e].
  - split.
    + intros i. split.
      * intros [msg Hmsg]. discriminate Hmsg.
      * intros [Hoff _]. rewrite Hres in Hoff. discriminate Hoff.
    + split; [intros _; exact Hres|intros _; by exists gs].
  - destruct Hres as (k & Hat & Hoff & Hfirst). split.
    + intros i. split.
      * intros [msg Hmsg]. rewrite Hat in Hmsg.
        injection Hmsg as _ <-. by split.
      * intros [Hoff' Hfirst']. exists (message e).
        destruct (Nat.lt_trichotomy i k) as [Hlt|[->|Hlt]].
        -- rewrite (Hfirst _ Hlt) in Hoff'. discriminate Hoff'.
        -- by rewrite <- Hat.
        -- rewrite (Hfirst' _ Hlt) in Hoff. discriminate Hoff.
    + split.
      * intros [gs Hgs]. discriminate Hgs.
      * intros Hnone. rewrite Hnone in Hoff. discriminate Hoff.
Qed.

End Syntax.

(** *** What a parsed expression is made of *)

Section Segments.

Variable ParseScriptVar : string -> CompiledScript + string.








End Segments.

(** *** Expressions without scripts *)

(** The texts between the commas. *)
Fixpoint splitCommas (bytes : list ascii) : list (list ascii) :=
  match bytes with
  | [] => [[]]
  | c :: rest =>
      if Ascii.eqb c "," then [] :: splitCommas rest
      else match splitCommas rest with
           | p :: ps => (c :: p) :: ps
           | [] => [[c]]
           end
  end.

(** The names of an expression of literals: the texts between its
    commas, trimmed, the blank ones left out. *)
Definition literalName (p : list ascii) : list string :=
  let text := TrimSpace (string_of_list_ascii p) in
  if String.eqb text EmptyString then [] else [text].

Definition literalNames (exp : string) : list string :=
  flat_map literalName (splitCommas (list_ascii_of_string exp)).

Definition noScript (exp : string) : bool :=
  forallb (fun c => negb (Ascii.eqb c "$") && negb (Ascii.eqb c "}"))
          (list_ascii_of_string exp).

Section Literals.

Variable ParseScriptVar : string -> CompiledScript + string.
Variable flatFill : string -> list string -> list string.
Variable outJoin : list string -> list string -> list string.

Definition literalGroup (p : list ascii) : inlineSegmentGroup :=
  {| segments :=
       map (fun text => {| rawScript := EmptyString; prefix := text;
                           script := None |})
           (literalName p) |}.

(** The first text continues what the prefix buffer holds. *)
Definition joinFirst (acc : list ascii) (ps : list (list ascii))
  : list (list ascii) :=
  match ps with
  | p :: ps' => (acc ++ p) :: ps'
  | [] => [acc]
  end.

Definition finishScan (exp : string) (r : scan + SyntaxError)
  : list inlineSegmentGroup + SyntaxError :=
  match r with
  | inr e => inr e
  | inl st =>
      match flushGroup ParseScriptVar (context st) with
      | inr err => inr (syntaxError exp err (String.length exp))
      | inl (g, _) => inl (groups st ++ [g])
      end
  end.

Lemma flushGroup_literal (ctx : splitContext) :
  ctxRawScript ctx = [] -> ctxSegments ctx = [] ->
  flushGroup ParseScriptVar ctx
  = inl (literalGroup (ctxPrefix ctx),
         {| ctxPrefix := []; ctxRawScript := []; ctxSegments := [] |}).
Proof.
  intros Hraw Hsegs. unfold flushGroup, flushSegment, isBlank, literalGroup,
    literalName.
  rewrite Hraw, Hsegs. cbn [prefix rawScript string_of_list_ascii].
  change (TrimSpace EmptyString) with EmptyString.
  rewrite TrimSpace_idem. cbn [String.eqb andb negb].
  rewrite andb_true_r.
  by destruct (String.eqb (TrimSpace (string_of_list_ascii (ctxPrefix ctx)))
                 EmptyString).
Qed.

Lemma splitCommas_cons (bytes : list ascii) :
  exists p ps, splitCommas bytes = p :: ps.
Proof.
  destruct bytes as [|c rest]; cbn; [by eexists _, _|].
  destruct (Ascii.eqb c ","); [by eexists _, _|].
  destruct (splitCommas rest); by eexists _, _.
Qed.

Lemma splitLoop_literals (exp : string) (rest : list ascii) :
  forall (i : nat) (st : scan) (gs : list inlineSegmentGroup),
  forallb isASCII rest = true ->
  forallb (fun c => negb (Ascii.eqb c "$") && negb (Ascii.eqb c "}")) rest
  = true ->
  isScript st = false -> ctxRawScript (context st) = [] ->
  ctxSegments (context st) = [] ->
  finishScan exp
    (splitLoop ParseScriptVar exp
       (map (fun ic => (ic.1, byte_of_rune ic.2)) (runes i 0 rest)) st)
  = inl gs ->
  gs = groups st
       ++ map literalGroup
            (joinFirst (ctxPrefix (context st)) (splitCommas rest)).
Proof.
  induction rest as [|c rest IH];
    intros i st gs Hascii Hplain Hs Hraw Hsegs.
  - cbn. rewrite (flushGroup_literal _ Hraw Hsegs), app_nil_r.
    by intros [= <-].
  - cbn [forallb] in Hascii, Hplain.
    apply andb_prop in Hascii as [Hc Hascii].
    apply andb_prop in Hplain as [Hcplain Hplain].
    apply andb_prop in Hcplain as [Hd Hb].
    apply negb_true_iff in Hd, Hb.
    cbn [runes map]. rewrite (DecodeRune_ascii _ _ Hc).
    cbn [fst snd splitLoop Nat.sub]. rewrite byte_of_rune_byteN.
    destruct (splitCommas_cons rest) as (p & ps & Hps).
    unfold splitStep. rewrite Hd, Hb, Hs. cbn [negb splitCommas].
    destruct (Ascii.eqb c "{") eqn:Hbrace.
    { assert (Ascii.eqb c "," = false) as ->.
      { apply Ascii.eqb_eq in Hbrace as ->. reflexivity. }
      intros Hfin. apply IH in Hfin; try done.
      rewrite Hfin, Hps. cbn. by rewrite <- app_assoc. }
    destruct (Ascii.eqb c ".") eqn:Hdot.
    { assert (Ascii.eqb c "," = false) as ->.
      { apply Ascii.eqb_eq in Hdot as ->. reflexivity. }
      destruct ((i =? 0) || (i =? String.length exp - 1));
        [discriminate|].
      destruct (includeSplitter st); [discriminate|].
      intros Hfin. apply IH in Hfin; try done.
      rewrite Hfin, Hps. cbn. by rewrite <- app_assoc. }
    destruct (Ascii.eqb c ",") eqn:Hcomma.
    { rewrite (flushGroup_literal _ Hraw Hsegs).
      intros Hfin. apply IH in Hfin; try done.
      rewrite Hfin, Hps. cbn. rewrite app_nil_r. by rewrite <- app_assoc. }
    intros Hfin. apply IH in Hfin; try done.
    rewrite Hfin, Hps. cbn. by rewrite <- app_assoc.
Qed.

Lemma flatGroups_literals (ps : list (list ascii)) (set : gset string) :
  flatGroups flatFill outJoin (map literalGroup ps) set
  = inl (set ∪ list_to_set (flat_map literalName ps)).
Proof.
  revert set. induction ps as [|p ps IH]; intros set.
  - cbn [map flatGroups flat_map]. f_equal. apply set_eq. intros x.
    rewrite elem_of_union, elem_of_list_to_set, elem_of_nil. tauto.
  - cbn [map flatGroups flat_map].
    assert (flatSegments flatFill outJoin (segments (literalGroup p)) []
            = inl (literalName p)) as ->.
    { unfold literalGroup, literalName. cbn [segments].
      destruct (String.eqb_spec
                  (TrimSpace (string_of_list_ascii p)) EmptyString)
        as [Hempty|Hfull]; [reflexivity|].
      cbn. apply String.eqb_neq in Hfull. by rewrite Hfull. }
    rewrite IH. f_equal. apply set_eq. intros x.
    rewrite !elem_of_union, !elem_of_list_to_set, elem_of_app. tauto.
Qed.

(** X7: an expression of ASCII bytes that holds neither [$] nor [}],
    once parsed, flattens to the texts between its commas, each trimmed
    and the blank ones left out; [Flat] does not fail on it. *)
Theorem Flat_literals (exp : string) (e : inlineExpr) :
  asciiOnly exp = true -> noScript exp = true ->
  NewInlineExpression ParseScriptVar exp = inl e ->
  Flat flatFill outJoin e = inl (list_to_set (literalNames exp)).
Proof.
  intros Hascii Hplain. unfold NewInlineExpression.
  destruct (splitSegments ParseScriptVar exp) as [gs|err] eqn:Hsplit;
    [|discriminate].
  intros [= <-]. unfold Flat. cbn [exprSegments].
  assert (gs = map literalGroup (splitCommas (list_ascii_of_string exp)))
    as ->.
  { pose proof (splitLoop_literals exp (list_ascii_of_string exp) 0
                  startScan gs Hascii Hplain eq_refl eq_refl eq_refl) as Hloop.
    destruct (splitCommas_cons (list_ascii_of_string exp)) as (p & ps & Hps).
    rewrite Hps in *. apply Hloop. exact Hsplit. }
  rewrite flatGroups_literals. f_equal. apply set_eq. intros x.
  rewrite elem_of_union, elem_of_empty. unfold literalNames. tauto.
Qed.

End Literals.

(** *** The rules of the expression syntax as the design states them

    A [$] must be immediately followed by [{]; a [}] must close a script;
    a [.] outside a script may stand neither at position 0 nor at len-1,
    and may appear at most once in a given segment. A segment ends where
    the parser flushes one: at a [,] outside a script and at the [}] of a
    script. *)

Definition segmentEnd (bytes : list ascii) (k : nat) : bool :=
  byteAt bytes k "," && negb (inScript bytes k)
  || byteAt bytes k "}" && inScript bytes k.

Definition dotInSegmentBefore (bytes : list ascii) (i : nat) : bool :=
  existsb
    (fun j =>
       byteAt bytes j "." && negb (inScript bytes j)
       && forallb (fun k => negb (segmentEnd bytes k)) (seq (S j) (i - S j)))
    (seq 0 i).

Definition statedOffence (bytes : list ascii) (i : nat) : bool :=
  match bytes !! i with
  | Some c =>
      if Ascii.eqb c "$" then negb (byteAt bytes (i + 1) "{")
      else if Ascii.eqb c "}" then negb (inScript bytes i)
      else if Ascii.eqb c "." then
        negb (inScript bytes i)
        && ((i =? 0) || (i =? length bytes - 1)
            || dotInSegmentBefore bytes i)
      else false
  | None => false
  end.

(** *** Examples

    A compiler that knows the one script of the examples, a range. *)

Definition exampleCompiler (text : string) : CompiledScript + string :=
  if String.eqb text "0..1"
  then inl {| ExecuteList := inl ["0"%string; "1"%string] |}
  else inr "unknown script"%string.

Lemma splitSegments_syntax_error_witness :
  asciiOnly "a.b,c.d" = true
  /\ (forall i,
        (exists msg,
           splitSegments exampleCompiler "a.b,c.d"
           = inr (syntaxError "a.b,c.d" msg i))
        <-> firstOffence exampleCompiler
              (list_ascii_of_string "a.b,c.d") i).
Proof.
  split; [reflexivity|].
  exact (proj1 (splitSegments_syntax_error exampleCompiler "a.b,c.d"
                  eq_refl)).
Defined.

(** C3 as stated fails on ["${a${b}"]: each [$] is immediately followed
    by [{], the one [}] is inside a script and there is no [.], so no
    position breaks a stated rule; and yet the second [$], being inside a
    script, is reported as a syntax error, at index 3. *)
Lemma splitSegments_dollar_in_script :
  splitSegments exampleCompiler "${a${b}"
  = inr (syntaxError "${a${b}" "should not appear symbol '$'" 3)
  /\ forall i, statedOffence (list_ascii_of_string "${a${b}") i = false.
Proof.
  split; [reflexivity|].
  intros i. do 8 (destruct i as [|i]; [reflexivity|]). reflexivity.
Qed.

(** The two [.] of ["a.b,c.d"] lie in different segments, and in
    different groups; the second is reported all the same, at index 5:
    nothing resets [includeSplitter]. *)
Lemma splitSegments_dot_in_other_segment :
  splitSegments exampleCompiler "a.b,c.d"
  = inr (syntaxError "a.b,c.d" "should not appear symbol '.'" 5)
  /\ forall i, statedOffence (list_ascii_of_string "a.b,c.d") i = false.
Proof.
  split; [reflexivity|].
  intros i. do 8 (destruct i as [|i]; [reflexivity|]). reflexivity.
Qed.

Definition shardSegment : inlineSegment :=
  {| rawScript := "0..1"; prefix := "ds_";
     script := Some {| ExecuteList := inl ["0"%string; "1"%string] |} |}.

Definition tableSegment : inlineSegment :=
  {| rawScript := EmptyString; prefix := ".t_order"; script := None |}.

Definition literalAfterScript : inlineExpr :=
  {| expression := "ds_${0..1}.t_order";
     exprSegments := [{| segments := [shardSegment; tableSegment] |}] |}.

Lemma NewInlineExpression_literalAfterScript :
  NewInlineExpression exampleCompiler "ds_${0..1}.t_order"
  = inl literalAfterScript.
Proof. reflexivity. Qed.

Lemma Flat_trailing_literal_witness :
  match Flat flatFill outJoin literalAfterScript with
  | inl set => ".t_order"%string ∈ set
  | inr _ => False
  end.
Proof.
  destruct (Flat flatFill outJoin literalAfterScript) as [set|err] eqn:Hflat;
    [|discriminate Hflat].
  apply (Flat_trailing_literal flatFill outJoin literalAfterScript
           {| segments := [shardSegment; tableSegment] |}
           [shardSegment] tableSegment set);
    [apply list_elem_of_here|reflexivity|reflexivity|discriminate
    |exact Hflat].
Defined.

(** On ["ds_${0..1}.t_order"] the result of [Flat] is [ds_0], [ds_1] and
    [.t_order], where the product C1 describes is [ds_0.t_order] and
    [ds_1.t_order]. *)
Lemma Flat_literalAfterScript :
  Flat flatFill outJoin literalAfterScript
  = inl (list_to_set ["ds_0"; "ds_1"; ".t_order"]%string)
  /\ unionOfProducts (exprSegments literalAfterScript)
     = inl (list_to_set ["ds_0.t_order"; "ds_1.t_order"]%string)
  /\ Flat flatFill outJoin literalAfterScript
     <> unionOfProducts (exprSegments literalAfterScript).
Proof.
  split; [by vm_compute|]. split; [by vm_compute|].
  by vm_compute.
Qed.

(** A group made of one script segment flattens to the strings of that
    segment, as in the design's example of a table range. *)
Lemma Flat_range :
  match NewInlineExpression exampleCompiler "t_${0..1}" with
  | inl e =>
      Flat flatFill outJoin e = inl (list_to_set ["t_0"; "t_1"]%string)
      /\ Flat flatFill outJoin e = unionOfProducts (exprSegments e)
  | inr _ => False
  end.
Proof. split; by vm_compute. Qed.

(** Why the statement on syntax errors is about ASCII text: the loop
    compares [byte(c)], and the two bytes of U+0124 make a code point
    whose low eight bits are those of [$]. *)
Lemma splitSegments_truncates_runes :
  let exp := String (ascii_of_nat 196) (String (ascii_of_nat 164) "{0..1}") in
  asciiOnly exp = false
  /\ splitSegments exampleCompiler exp
     = inr (syntaxError exp "'{' symbol is missing after the symbol '$'" 0).
Proof. split; reflexivity. Qed.


Lemma Flat_elements_witness :
  exists set,
    Flat flatFill outJoin literalAfterScript = inl set
    /\ forall x,
         x ∈ set <->
         exists g current,
           g ∈ exprSegments literalAfterScript
           /\ flatSegments flatFill outJoin (segments g) [] = inl current
           /\ x ∈ current.
Proof.
  eexists. split; [reflexivity|].
  exact (Flat_elements flatFill outJoin literalAfterScript _ eq_refl).
Defined.

(** The shards and one more table, as two groups in either order. *)
Definition shardsThenTable : inlineExpr :=
  {| expression := "ds_${0..1},.t_order";
     exprSegments := [{| segments := [shardSegment] |};
                      {| segments := [tableSegment] |}] |}.

Definition tableThenShards : inlineExpr :=
  {| expression := ".t_order,ds_${0..1}";
     exprSegments := [{| segments := [tableSegment] |};
                      {| segments := [shardSegment] |}] |}.

Lemma Flat_group_order_witness :
  exists set,
    Flat flatFill outJoin shardsThenTable = inl set
    /\ Flat flatFill outJoin tableThenShards = inl set.
Proof.
  eexists. split; [reflexivity|].
  exact (Flat_group_order flatFill outJoin shardsThenTable tableThenShards _
           (perm_swap _ _ _) eq_refl).
Defined.

Lemma Flat_literals_witness :
  exists e,
    NewInlineExpression exampleCompiler "t_a, t_b" = inl e
    /\ Flat flatFill outJoin e = inl (list_to_set ["t_a"; "t_b"]%string).
Proof.
  eexists. split; [reflexivity|].
  exact (Flat_literals exampleCompiler flatFill outJoin "t_a, t_b" _
           eq_refl eq_refl eq_refl).
Defined.

End Script.

(** ** proxy/server/executor_handle.go *)

Module Server.

(** *** Errors *)

(** The [mysql] error constants the handlers raise. *)
Inductive ErrCode :=
  | ErrUnknown
  | ErrNoDB
  | ErrUnknownCharacterSet
  | ErrWrongValueForVar
  | ErrVariableIsReadonly.

(** Modelled from the spec: the numbers of the [mysql] error constants
    (package [mysql] is not part of the sources at hand); they are MySQL's
    own error numbers. *)
Definition errno (c : ErrCode) : Z :=
  match c with
  | ErrUnknown => 1105
  | ErrNoDB => 1046
  | ErrUnknownCharacterSet => 1115
  | ErrWrongValueForVar => 1231
  | ErrVariableIsReadonly => 1238
  end.

(** Go [error] values by the constructor that made them:
    the two sentinels of [core/errors], [fmt.Errorf] (format and
    arguments kept apart), [mysql.NewError], [mysql.NewDefaultError], and
    errors handed back by a collaborator. *)
Inductive error :=
  | ErrInternalServer
  | ErrCmdUnsupport
  | Errorf (format : string) (args : list fmtArg)
  | NewError (code : ErrCode) (message : string)
  | NewDefaultError (code : ErrCode) (args : list string)
  | ForeignError (text : string)
with fmtArg :=
  | ArgString (s : string)
  | ArgError (e : error).

(** The MySQL error number an error carries on the wire, when it is a
    [*mysql.SqlError]. *)
Definition sqlErrno (e : error) : option Z :=
  match e with
  | NewError c _ | NewDefaultError c _ => Some (errno c)
  | _ => None
  end.

(** A recovered panic value: an [error] (a runtime error) or anything
    else. *)
Inductive PanicValue :=
  | PanicError (text : string)
  | PanicOther (text : string).

(** *** Session data *)

(** [backend.PooledConnect]: a handle on a backend connection. *)
Record PooledConnect := { connId : nat }.

#[global] Instance PooledConnect_eq_dec : EqDecision PooledConnect.
Proof. solve_decision. Defined.

(** [Stmt]: a prepared statement. *)
Record Stmt := {
  stmtId : Z;
  stmtSql : string;
  paramCount : Z;
  offsets : list Z;
  columnCount : Z
}.

(** The types the executor takes from its collaborators: the parser's
    expression and SHOW nodes, [parser.StatementType], [mysql.Result],
    [plan.Plan], the namespace, the session-variable store and the state
    of everything outside the session (backends, pools, statistics). *)
Class Types := {
  ExprNode : Type;
  ShowStmt : Type;
  OtherStmt : Type;
  StatementType : Type;
  StatementType_eq_dec :: EqDecision StatementType;
  Result : Type;
  Plan : Type;
  Namespace : Type;
  SessionVariables : Type;
  Ext : Type
}.

Section Data.
Context `{Types}.

(** [ast.VariableAssignment]. *)
Record VariableAssignment := {
  Name : string;
  Value : ExprNode;
  IsGlobal : bool;
  ExtendValue : option ExprNode
}.

(** The statement nodes [handleQueryWithoutPlan] tells apart. *)
Inductive StmtNode :=
  | ShowStmtNode (stmt : ShowStmt)
  | SetStmt (Variables : list VariableAssignment)
  | BeginStmt
  | CommitStmt
  | RollbackStmt
  | UseStmt (DBName : string)
  | OtherStmtNode (stmt : OtherStmt).

(** The fields of [SessionExecutor] the handlers touch. [status] is a
    [uint16]; [stmtID] and the keys of [stmts] are [uint32]. *)
Record SessionExecutor := {
  namespace : string;
  user : string;
  db : string;
  status : Z;
  charset : string;
  collation : Z;
  txConns : gmap string PooledConnect;
  stmtID : Z;
  stmts : gmap Z Stmt;
  sessionVariables : SessionVariables
}.

Implicit Type s : SessionExecutor.

Definition set_db (x : string) s : SessionExecutor :=
  {| namespace := namespace s; user := user s; db := x;
     status := status s; charset := charset s; collation := collation s;
     txConns := txConns s; stmtID := stmtID s; stmts := stmts s;
     sessionVariables := sessionVariables s |}.

Definition set_status (x : Z) s : SessionExecutor :=
  {| namespace := namespace s; user := user s; db := db s;
     status := x; charset := charset s; collation := collation s;
     txConns := txConns s; stmtID := stmtID s; stmts := stmts s;
     sessionVariables := sessionVariables s |}.

Definition set_charset (cs : string) (col : Z) s : SessionExecutor :=
  {| namespace := namespace s; user := user s; db := db s;
     status := status s; charset := cs; collation := col;
     txConns := txConns s; stmtID := stmtID s; stmts := stmts s;
     sessionVariables := sessionVariables s |}.

Definition set_txConns (x : gmap string PooledConnect) s : SessionExecutor :=
  {| namespace := namespace s; user := user s; db := db s;
     status := status s; charset := charset s; collation := collation s;
     txConns := x; stmtID := stmtID s; stmts := stmts s;
     sessionVariables := sessionVariables s |}.

Definition set_stmts (x : gmap Z Stmt) s : SessionExecutor :=
  {| namespace := namespace s; user := user s; db := db s;
     status := status s; charset := charset s; collation := collation s;
     txConns := txConns s; stmtID := stmtID s; stmts := x;
     sessionVariables := sessionVariables s |}.

(** [util.RequestContext]: the two keys the executor sets. *)
Record RequestContext := {
  ctxStmtType : option StatementType;
  ctxFromSlave : option Z
}.

Definition NewRequestContext : RequestContext :=
  {| ctxStmtType := None; ctxFromSlave := None |}.

(** What leaves the session: log lines and calls into collaborators, in
    the order they are made. *)
Inductive Event :=
  | Warnf (format : string) (args : list string)
  | CallIsSQLAllowed (sql : string)
  | CallGetFingerprint (sql : string)
  | CallRecordSQLForbidden (fingerprint ns : string)
  | CallPreviewSql (sql : string)
  | CallRecordSessionSQLMetrics (sql : string) (err : option error)
  | CallParse (sql : string)
  | CallBuildPlan (db sql : string)
  | CallExecuteIn
  | CallExecuteSQLNoData (slice db sql : string)
  | CallHandleShow (sql : string)
  | CallHandleBegin
  | CallHandleCommit
  | CallHandleRollback
  | CallSetSessionVariable (name : string)
  | CallSetGeneralLogVariable
  | ConnSetAutoCommit (pc : PooledConnect) (v : Z)
  | ConnRecycle (pc : PooledConnect).

(** The session, the request context of the query being handled, the
    outside world and the trace of events so far. *)
Record World := {
  se : SessionExecutor;
  reqCtx : RequestContext;
  ext : Ext;
  trace : list Event
}.

End Data.

(** *** Computations that may panic *)

Inductive outcome (A : Type) :=
  | Done (a : A)
  | Panicked (v : PanicValue).
Arguments Done {A} _.
Arguments Panicked {A} _.

(** A Go function body over the mutable state [S]: it returns or panics,
    and the state it reached is kept either way. *)
Definition M (S A : Type) : Type := S -> outcome A * S.

#[global] Instance M_ret {S} : MRet (M S) :=
  fun A (a : A) s => (Done a, s).

#[global] Instance M_bind {S} : MBind (M S) :=
  fun A B (k : A -> M S B) (m : M S A) s =>
    match m s with
    | (Done a, s') => k a s'
    | (Panicked v, s') => (Panicked v, s')
    end.

Definition panic {S A} (v : PanicValue) : M S A := fun s => (Panicked v, s).

Lemma bind_done {S A B} (m : M S A) (k : A -> M S B) s a s' :
  m s = (Done a, s') -> (m ≫= k) s = k a s'.
Proof. unfold mbind, M_bind. by intros ->. Qed.

Lemma bind_panicked {S A B} (m : M S A) (k : A -> M S B) s v s' :
  m s = (Panicked v, s') -> (m ≫= k) s = (Panicked v, s').
Proof. unfold mbind, M_bind. by intros ->. Qed.

(** *** Collaborators

    Constants, tables and functions of the repository and of its libraries
    that the handlers use and that are not part of the sources at hand.
    A call that leaves the session works on [Ext] (and on the session when
    it is handed the executor) and may panic. *)
Class Collaborators `{Types} := {
  ServerStatusInTrans : Z;
  ServerStatusAutocommit : Z;
  SQLModeStr : string;
  SQLSafeUpdates : string;
  TimeZone : string;
  MaxAllowedPacket : string;
  gaeaGeneralLogVariable : string;
  DefaultSlice : string;
  StmtShow : StatementType;
  CharsetsToCollationNames : gmap string string;
  CollationIds : gmap string Z;
  CollationNameToCharset : gmap string string;

  CanHandleWithoutPlan : StatementType -> bool;
  isSQLNotAllowedByUser : SessionExecutor -> StatementType -> bool;
  canExecuteFromSlave : SessionExecutor -> string -> bool;
  modifyResultStatus : Result -> SessionExecutor -> Result;
  getVariableExprResult : ExprNode -> string;
  getOnOffVariable : string -> Z + error;
  GetNamespace : SessionExecutor -> Namespace;
  GetName : Namespace -> string;
  IsAllowedDB : Namespace -> string -> bool;
  GetDefaultCharset : Namespace -> string;
  GetDefaultCollationID : Namespace -> Z;

  IsSQLAllowed : Namespace -> RequestContext -> string ->
                 Ext -> outcome bool * Ext;
  GetFingerprint : string -> outcome string;
  RecordSQLForbidden : string -> string -> Ext -> outcome unit * Ext;
  PreviewSql : string -> outcome StatementType;
  RecordSessionSQLMetrics :
    RequestContext -> SessionExecutor -> string -> option error ->
    Ext -> outcome unit * Ext;
  ParseOneStmt : string -> Ext -> outcome (StmtNode + error) * Ext;
  BuildPlan : StmtNode -> Namespace -> string -> string ->
              Ext -> outcome (Plan + error) * Ext;
  ExecuteIn : Plan -> RequestContext ->
              SessionExecutor * Ext ->
              outcome (Result + error) * (SessionExecutor * Ext);
  executeSQLNoData : RequestContext -> string -> string -> string ->
                     SessionExecutor * Ext ->
                     outcome (Result + error) * (SessionExecutor * Ext);
  handleShow : RequestContext -> string -> ShowStmt ->
               SessionExecutor * Ext ->
               outcome (option Result * option error) *
               (SessionExecutor * Ext);
  handleBegin : SessionExecutor * Ext ->
                outcome (option error) * (SessionExecutor * Ext);
  handleCommit : SessionExecutor * Ext ->
                 outcome (option error) * (SessionExecutor * Ext);
  handleRollback : SessionExecutor * Ext ->
                   outcome (option error) * (SessionExecutor * Ext);
  setStringSessionVariable : string -> string ->
    SessionExecutor * Ext -> outcome (option error) * (SessionExecutor * Ext);
  setIntSessionVariable : string -> Z ->
    SessionExecutor * Ext -> outcome (option error) * (SessionExecutor * Ext);
  setGeneralLogVariable : Z ->
    SessionExecutor * Ext -> outcome (option error) * (SessionExecutor * Ext);
  pcSetAutoCommit : PooledConnect -> Z -> Ext -> outcome (option error) * Ext;
  pcRecycle : PooledConnect -> Ext -> outcome unit * Ext
}.

(** Modelled from the spec: [mysql.KeywordDefault], the word that resets a
    variable ([autocommit]: [on|1|default]). *)
Definition KeywordDefault : string := "default".

Section Handlers.
Context `{Collaborators}.

(** **** Plumbing *)

Definition with_se (f : SessionExecutor -> SessionExecutor) (w : World)
  : World :=
  {| se := f (se w); reqCtx := reqCtx w; ext := ext w; trace := trace w |}.

Definition with_reqCtx (c : RequestContext) (w : World) : World :=
  {| se := se w; reqCtx := c; ext := ext w; trace := trace w |}.

Definition with_event (e : Event) (w : World) : World :=
  {| se := se w; reqCtx := reqCtx w; ext := ext w;
     trace := trace w ++ [e] |}.

Definition get_se : M World SessionExecutor := fun w => (Done (se w), w).

Definition get_reqCtx : M World RequestContext :=
  fun w => (Done (reqCtx w), w).

Definition modify_se (f : SessionExecutor -> SessionExecutor)
  : M World unit :=
  fun w => (Done tt, with_se f w).

Definition set_reqCtx (c : RequestContext) : M World unit :=
  fun w => (Done tt, with_reqCtx c w).

Definition warnf (format : string) (args : list string) : M World unit :=
  fun w => (Done tt, with_event (Warnf format args) w).

(** A call of a function that neither reads nor writes state. *)
Definition call_pure {A} (e : Event) (o : outcome A) : M World A :=
  fun w => (o, with_event e w).

(** A call that works on the outside world only. *)
Definition call_ext {A} (e : Event) (f : Ext -> outcome A * Ext)
  : M World A :=
  fun w =>
    let '(o, x) := f (ext w) in
    (o, {| se := se w; reqCtx := reqCtx w; ext := x;
           trace := trace w ++ [e] |}).

(** A call that is handed the executor. *)
Definition call_session {A} (e : Event)
    (f : SessionExecutor * Ext -> outcome A * (SessionExecutor * Ext))
  : M World A :=
  fun w =>
    let '(o, (s, x)) := f (se w, ext w) in
    (o, {| se := s; reqCtx := reqCtx w; ext := x;
           trace := trace w ++ [e] |}).

(** **** handleSetAutoCommit *)

(** [^mask] on a [uint16]. *)
Definition uint16_not (mask : Z) : Z := Z.lxor 65535 mask.

(** The loop over [se.txConns]. Go walks a map in an order of its own
    choosing; the model walks the list it is given. *)
Fixpoint resetConns (conns : list (string * PooledConnect))
    (err : option error) : M World (option error) :=
  match conns with
  | [] => mret err
  | (_, pc) :: rest =>
      e ← call_ext (ConnSetAutoCommit pc 1) (pcSetAutoCommit pc 1);
      let err :=
        match e with
        | Some e' => Some (Errorf "set autocommit error, %v" [ArgError e'])
        | None => err
        end in
      call_ext (ConnRecycle pc) (pcRecycle pc);;
      resetConns rest err
  end.

Definition handleSetAutoCommit (autocommit : bool) : M World (option error) :=
  if autocommit then
    modify_se (fun s => set_status (Z.lor (status s) ServerStatusAutocommit) s);;
    s ← get_se;
    (if 0 <? Z.land (status s) ServerStatusInTrans
     then modify_se (fun s =>
            set_status (Z.land (status s) (uint16_not ServerStatusInTrans)) s)
     else mret tt);;
    s ← get_se;
    err ← resetConns (map_to_list (txConns s)) None;
    modify_se (set_txConns ∅);;
    mret err
  else
    modify_se (fun s =>
      set_status (Z.land (status s) (uint16_not ServerStatusAutocommit)) s);;
    mret None.

(** **** handleSetVariable and handleSet *)

Definition name_in (name : string) (names : list string) : bool :=
  bool_decide (name ∈ names).

Definition charsetVariables : list string :=
  ["character_set_results"; "character_set_client";
   "character_set_connection"].

Definition timeoutVariables : list string :=
  ["wait_timeout"; "interactive_timeout"; "net_write_timeout";
   "net_read_timeout"].

Definition handleSetVariable (v : VariableAssignment)
  : M World (option error) :=
  if IsGlobal v then
    mret (Some (Errorf "does not support set variable in global scope" []))
  else
    let name := ToLower (Name v) in
    if name_in name charsetVariables then
      let charset := getVariableExprResult (Value v) in
      if String.eqb charset "null" then mret None
      else if String.eqb charset KeywordDefault then
        s ← get_se;
        modify_se (set_charset (GetDefaultCharset (GetNamespace s))
                               (GetDefaultCollationID (GetNamespace s)));;
        mret None
      else
        match CharsetsToCollationNames !! charset with
        | None => mret (Some (NewDefaultError ErrUnknownCharacterSet [charset]))
        | Some col =>
            modify_se (set_charset charset (default 0 (CollationIds !! col)));;
            mret None
        end
    else if String.eqb name "autocommit" then
      let value := getVariableExprResult (Value v) in
      if String.eqb value KeywordDefault || String.eqb value "on"
         || String.eqb value "1"
      then handleSetAutoCommit true
      else if String.eqb value "off" || String.eqb value "0"
      then handleSetAutoCommit false
      else mret (Some (NewDefaultError ErrWrongValueForVar [name; value]))
    else if String.eqb name "setnames" then
      s ← get_se;
      let charset := getVariableExprResult (Value v) in
      let charset :=
        if String.eqb charset KeywordDefault
        then GetDefaultCharset (GetNamespace s) else charset in
      let unknown : M World (option error) :=
        mret (Some (NewDefaultError ErrUnknownCharacterSet [charset])) in
      match ExtendValue v with
      | Some ev =>
          let collationName := getVariableExprResult ev in
          match CollationIds !! collationName with
          | None => unknown
          | Some cid =>
              match CollationNameToCharset !! collationName with
              | None => unknown
              | Some toCharset =>
                  if negb (String.eqb toCharset charset) then unknown
                  else modify_se (set_charset charset cid);; mret None
              end
          end
      | None =>
          match CharsetsToCollationNames !! charset with
          | None => unknown
          | Some col =>
              match CollationIds !! col with
              | None => unknown
              | Some cid => modify_se (set_charset charset cid);; mret None
              end
          end
      end
    else if String.eqb name "sql_mode" then
      let sqlMode := getVariableExprResult (Value v) in
      call_session (CallSetSessionVariable SQLModeStr)
        (setStringSessionVariable SQLModeStr sqlMode)
    else if String.eqb name "sql_safe_updates" then
      let value := getVariableExprResult (Value v) in
      match getOnOffVariable value with
      | inr _ => mret (Some (NewDefaultError ErrWrongValueForVar [name; value]))
      | inl onOffValue =>
          call_session (CallSetSessionVariable SQLSafeUpdates)
            (setIntSessionVariable SQLSafeUpdates onOffValue)
      end
    else if String.eqb name "time_zone" then
      let value := getVariableExprResult (Value v) in
      call_session (CallSetSessionVariable TimeZone)
        (setStringSessionVariable TimeZone value)
    else if String.eqb name "max_allowed_packet" then
      mret (Some (NewDefaultError ErrVariableIsReadonly
                    ["SESSION"; MaxAllowedPacket; "GLOBAL"]))
    else if name_in name timeoutVariables then mret None
    else if String.eqb name "sql_select_limit" then mret None
    else if String.eqb name "transaction" then
      mret (Some (Errorf "does not support set transaction in gaea" []))
    else if String.eqb name gaeaGeneralLogVariable then
      let value := getVariableExprResult (Value v) in
      match getOnOffVariable value with
      | inr _ => mret (Some (NewDefaultError ErrWrongValueForVar [name; value]))
      | inl onOffValue =>
          call_session CallSetGeneralLogVariable
            (setGeneralLogVariable onOffValue)
      end
    else mret None.


Fixpoint handleSet (Variables : list VariableAssignment)
  : M World (option Result * option error) :=
  match Variables with
  | [] => mret (None, None)
  | v :: rest =>
      err ← handleSetVariable v;
      match err with
      | Some e => mret (None, Some e)
      | None => handleSet rest
      end
  end.

(** **** handleStmtClose *)

Definition byte_val (b : byte) : Z := Z.of_N (Byte.to_N b).

(** [binary.LittleEndian.Uint32] on the first four bytes. *)
Definition LittleEndian_Uint32 (b0 b1 b2 b3 : byte) : Z :=
  Z.lor (Z.lor (Z.lor (byte_val b0) (Z.shiftl (byte_val b1) 8))
               (Z.shiftl (byte_val b2) 16))
        (Z.shiftl (byte_val b3) 24).

Definition handleStmtClose (data : list byte) : M World (option error) :=
  match data with
  | b0 :: b1 :: b2 :: b3 :: _ =>
      let id := LittleEndian_Uint32 b0 b1 b2 b3 in
      modify_se (fun s => set_stmts (delete id (stmts s)) s);;
      mret None
  | _ => mret None
  end.

(** **** handleUseDB *)

Definition handleUseDB (dbName : string) : M World (option error) :=
  if (String.length dbName =? 0)%nat then
    mret (Some (Errorf "must have database, the length of dbName is zero" []))
  else
    s ← get_se;
    if IsAllowedDB (GetNamespace s) dbName then
      modify_se (set_db dbName);; mret None
    else mret (Some (NewDefaultError ErrNoDB [])).

(** **** The query path *)

Definition Parse (sql : string) : M World (StmtNode + error) :=
  call_ext (CallParse sql) (ParseOneStmt sql).

Definition getPlan (ns : Namespace) (db sql : string)
  : M World (Plan + error) :=
  n ← Parse sql;
  match n with
  | inr err =>
      mret (inr (Errorf "parse parser error, parser: %s, err: %v"
                   [ArgString sql; ArgError err]))
  | inl n =>
      p ← call_ext (CallBuildPlan db sql) (BuildPlan n ns db sql);
      match p with
      | inr err =>
          mret (inr (Errorf "create select plan error: %v" [ArgError err]))
      | inl p => mret (inl p)
      end
  end.

(** [reqCtx.Get(util.StmtType).(parser.StatementType)]: the type assertion
    panics when the key was never set. *)
Definition getStmtType : M World StatementType :=
  c ← get_reqCtx;
  match ctxStmtType c with
  | Some t => mret t
  | None =>
      panic (PanicError
        "interface conversion: interface {} is nil, not parser.StatementType")
  end.

Definition handleQueryWithoutPlan (sql : string)
  : M World (option Result * option error) :=
  n ← Parse sql;
  match n with
  | inr err =>
      stmtType ← getStmtType;
      c ← get_reqCtx;
      s ← get_se;
      if bool_decide (stmtType = StmtShow) then
        r ← call_session (CallExecuteSQLNoData DefaultSlice (db s) sql)
              (executeSQLNoData c DefaultSlice (db s) sql);
        match r with
        | inl r => mret (Some r, None)
        | inr _ => mret (None, Some ErrCmdUnsupport)
        end
      else
        warnf "parse parser error, parser: %s, err: %v" [sql];;
        mret (None, Some ErrCmdUnsupport)
  | inl (ShowStmtNode stmt) =>
      c ← get_reqCtx;
      call_session (CallHandleShow sql) (handleShow c sql stmt)
  | inl (SetStmt Variables) => handleSet Variables
  | inl BeginStmt =>
      e ← call_session CallHandleBegin handleBegin; mret (None, e)
  | inl CommitStmt =>
      e ← call_session CallHandleCommit handleCommit; mret (None, e)
  | inl RollbackStmt =>
      e ← call_session CallHandleRollback handleRollback; mret (None, e)
  | inl (UseStmt DBName) =>
      e ← handleUseDB DBName; mret (None, e)
  | inl (OtherStmtNode _) =>
      s ← get_se;
      mret (None,
            Some (Errorf "cannot handle parser without plan, ns: %s, parser: %s"
                    [ArgString (namespace s); ArgString sql]))
  end.

Definition doQuery (sql : string) : M World (option Result * option error) :=
  stmtType ← getStmtType;
  s ← get_se;
  if isSQLNotAllowedByUser s stmtType then
    mret (None, Some (Errorf "write DML is now allowed by read user" []))
  else if CanHandleWithoutPlan stmtType then handleQueryWithoutPlan sql
  else
    let db := db s in
    p ← getPlan (GetNamespace s) db sql;
    match p with
    | inr err =>
        mret (None,
              Some (Errorf "get plan error, db: %s, parser: %s, err: %v"
                      [ArgString db; ArgString sql; ArgError err]))
    | inl p =>
        s ← get_se;
        c ← get_reqCtx;
        (if canExecuteFromSlave s sql
         then set_reqCtx {| ctxStmtType := ctxStmtType c;
                            ctxFromSlave := Some 1 |}
         else mret tt);;
        c ← get_reqCtx;
        r ← call_session CallExecuteIn (ExecuteIn p c);
        match r with
        | inr err => warnf "execute select: %s" [];; mret (None, Some err)
        | inl r => s ← get_se; mret (Some (modifyResultStatus r s), None)
        end
    end.

(** The named results [(r, err)] of [handleQuery]. *)
Definition Frame : Type := option Result * option error.

Definition liftW {A} (m : M World A) : M (Frame * World) A :=
  fun '(f, w) => let '(o, w') := m w in (o, (f, w')).

(** An assignment to the named results; [return x, y] is the assignment
    followed by the end of the body. *)
Definition assign (f : Frame) : M (Frame * World) unit :=
  fun '(_, w) => (Done tt, (f, w)).

Definition errBlacklist : error := NewError ErrUnknown "parser in blacklist".

(** The body of [handleQuery], below the deferred function. *)
Definition handleQuery_body (sql : string) : M (Frame * World) unit :=
  let sql := TrimRight sql ";" in
  liftW (set_reqCtx NewRequestContext);;
  s ← liftW get_se;
  let ns := GetNamespace s in
  allowed ← liftW (call_ext (CallIsSQLAllowed sql)
                     (IsSQLAllowed ns NewRequestContext sql));
  if negb allowed then
    fingerprint ← liftW (call_pure (CallGetFingerprint sql)
                           (GetFingerprint sql));
    liftW (warnf "catch black parser, parser: %s" [sql]);;
    s ← liftW get_se;
    let name := GetName (GetNamespace s) in
    liftW (call_ext (CallRecordSQLForbidden fingerprint name)
             (RecordSQLForbidden fingerprint name));;
    assign (None, Some errBlacklist)
  else
    stmtType ← liftW (call_pure (CallPreviewSql sql) (PreviewSql sql));
    liftW (set_reqCtx {| ctxStmtType := Some stmtType;
                         ctxFromSlave := None |});;
    res ← liftW (doQuery sql);
    assign res;;
    c ← liftW get_reqCtx;
    s ← liftW get_se;
    liftW (call_ext (CallRecordSessionSQLMetrics sql res.2)
             (RecordSessionSQLMetrics c s sql res.2))
  .

(** The deferred function: what [recover] hands it is logged (twice when
    it is an [error]) and [err] is overwritten; [r] keeps the value it had
    when the panic started. *)
Definition recovered (sql : string) (v : PanicValue) (st : Frame * World)
  : Frame * World :=
  let '((r, _), w) := st in
  let w :=
    with_event
      (Warnf "handle query command failed, error: %v, parser: %s" [sql]) w in
  let w :=
    match v with
    | PanicError text =>
        with_event
          (Warnf "handle query command catch panic error, parser: %s, error: %s, stack: %s"
             [sql; text]) w
    | PanicOther _ => w
    end in
  ((r, Some ErrInternalServer), w).

Definition handleQuery (sql : string) (w : World) : Frame * World :=
  match handleQuery_body sql ((None, None), w) with
  | (Done _, st) => st
  | (Panicked v, st) => recovered sql v st
  end.

(** *** Properties of the session handlers *)





(** The bytes of a little-endian id. *)
Lemma handleStmtClose_short data w :
  (length data < 4)%nat -> handleStmtClose data w = (Done None, w).
Proof.
  intros Hl.
  destruct data as [|b0 [|b1 [|b2 [|b3 rest]]]]; simpl in Hl; try lia;
    reflexivity.
Qed.

Lemma with_se_id (f : SessionExecutor -> SessionExecutor) w :
  f (se w) = se w -> with_se f w = w.
Proof. destruct w as [s c x t]. unfold with_se. simpl. by intros ->. Qed.

Lemma set_stmts_id (s : SessionExecutor) m :
  m = stmts s -> set_stmts m s = s.
Proof. destruct s. unfold set_stmts. simpl. by intros ->. Qed.

Definition closeStmt (id : Z) (w : World) : World :=
  with_se (fun s => set_stmts (delete id (stmts s)) s) w.

(** C10: [handleStmtClose] always returns [nil]. A payload of fewer than
    four bytes leaves everything as it was. A longer one deletes the entry
    whose key is the little-endian [uint32] in its first four bytes:
    nothing but [stmts] changes, nothing changes at all when the id is not
    in the table, and closing again changes nothing more. *)
Theorem handleStmtClose_spec (data : list byte) (w : World) :
  exists w',
    handleStmtClose data w = (Done None, w') /\
    ((length data < 4)%nat -> w' = w) /\
    (forall b0 b1 b2 b3 rest, data = b0 :: b1 :: b2 :: b3 :: rest ->
       let id := LittleEndian_Uint32 b0 b1 b2 b3 in
       w' = closeStmt id w /\
       stmts (se w') = delete id (stmts (se w)) /\
       (stmts (se w) !! id = None -> w' = w)) /\
    handleStmtClose data w' = (Done None, w').
Proof.
  destruct data as [|b0 [|b1 [|b2 [|b3 rest]]]];
    try (exists w; repeat split; try done; simpl; intros; lia).
  exists (closeStmt (LittleEndian_Uint32 b0 b1 b2 b3) w).
  split; [reflexivity|]. split; [simpl; lia|]. split.
  - intros ? ? ? ? ? [= <- <- <- <-] id. subst id.
    split; [done|]. split; [done|].
    intros Hnone. unfold closeStmt. apply with_se_id, set_stmts_id.
    by apply delete_id.
  - simpl. unfold mbind, M_bind, modify_se, mret, M_ret. simpl.
    f_equal. unfold closeStmt.
    apply with_se_id, set_stmts_id. simpl.
    by rewrite delete_delete_eq.
Qed.

(** Every assignment of the list succeeds, one after the other. *)
Inductive assigned : list VariableAssignment -> World -> World -> Prop :=
  | assigned_nil w : assigned [] w w
  | assigned_cons v rest w w1 w2 :
      handleSetVariable v w = (Done None, w1) ->
      assigned rest w1 w2 ->
      assigned (v :: rest) w w2.

Lemma handleSet_app vars1 vars2 w w1 :
  assigned vars1 w w1 ->
  handleSet (vars1 ++ vars2) w = handleSet vars2 w1.
Proof.
  induction 1 as [|v rest w w1 w2 Hv _ IH]; [done|].
  simpl. by rewrite (bind_done _ _ _ _ _ Hv).
Qed.

Lemma handleSet_assigned vars w w1 :
  assigned vars w w1 -> handleSet vars w = (Done (None, None), w1).
Proof.
  intros Ha. rewrite <- (app_nil_r vars). by rewrite (handleSet_app _ _ _ _ Ha).
Qed.

(** C9: a SET with several assignments is not atomic. When the
    assignments before [v] succeed in the order they are listed and [v]
    fails, [handleSet] returns the error of [v], applies nothing that
    comes after it, and leaves the world as the earlier assignments (and
    [v] itself) made it. *)
Theorem handleSet_stops_at_first_error vars1 v vars2 w w1 w2 e :
  assigned vars1 w w1 ->
  handleSetVariable v w1 = (Done (Some e), w2) ->
  handleSet (vars1 ++ v :: vars2) w = (Done (None, Some e), w2).
Proof.
  intros Ha Hv. rewrite (handleSet_app _ _ _ _ Ha). simpl.
  by rewrite (bind_done _ _ _ _ _ Hv).
Qed.

(** **** Status bits *)








(** **** The loop over the pinned connections *)









(** **** The query entry point *)

(** C5: when the namespace refuses the SQL (the text after the trailing
    semicolons are cut), [handleQuery] returns no result and the blacklist
    error. What left the session on the way is, in this order: the
    blacklist lookup, the fingerprint, a warning in the log, and the
    fingerprint recorded against the namespace's name. Nothing is parsed,
    planned or sent to a backend, and the session is as it was. *)
Theorem handleQuery_blacklisted (sql : string) (w : World) x1 fp x2 :
  IsSQLAllowed (GetNamespace (se w)) NewRequestContext (TrimRight sql ";")
    (ext w) = (Done false, x1) ->
  GetFingerprint (TrimRight sql ";") = Done fp ->
  RecordSQLForbidden fp (GetName (GetNamespace (se w))) x1 = (Done tt, x2) ->
  handleQuery sql w =
    ((None, Some errBlacklist),
     {| se := se w; reqCtx := NewRequestContext; ext := x2;
        trace := trace w ++
          [CallIsSQLAllowed (TrimRight sql ";");
           CallGetFingerprint (TrimRight sql ";");
           Warnf "catch black parser, parser: %s" [TrimRight sql ";"];
           CallRecordSQLForbidden fp (GetName (GetNamespace (se w)))] |}).
Proof.
  intros Hallowed Hfp Hrec.
  unfold handleQuery, handleQuery_body, mbind, M_bind, liftW, set_reqCtx,
    get_se, call_ext, call_pure, warnf, assign. simpl.
  rewrite Hallowed. simpl. rewrite Hfp. simpl.
  rewrite Hrec. simpl. by rewrite <- !app_assoc.
Qed.

(** C6, as the code has it: a statement that [isSQLNotAllowedByUser]
    refuses is answered by [doQuery] with no result and the plain
    [fmt.Errorf] error; nothing is parsed, planned or dispatched, and the
    world is untouched. *)
Theorem doQuery_read_only (sql : string) (w : World) (t : StatementType) :
  ctxStmtType (reqCtx w) = Some t ->
  isSQLNotAllowedByUser (se w) t = true ->
  doQuery sql w =
    (Done (None, Some (Errorf "write DML is now allowed by read user" [])), w).
Proof.
  intros Ht Hro.
  unfold doQuery, getStmtType, mbind, M_bind, get_reqCtx, get_se. simpl.
  rewrite Ht. simpl. by rewrite Hro.
Qed.




End Handlers.

(** *** Further properties of the handlers *)

Section HandlerProperties.
Context `{Collaborators}.

(** **** handleUseDB *)

(** X8: [handleUseDB] returns [nil] exactly when the name is not empty
    and the namespace allows it, and then the session's database is that
    name and nothing else has changed. In every other case the world is
    as it was: an empty name gets the [fmt.Errorf] error, a name that is
    not allowed the default error of [ErrNoDB]. *)
Theorem handleUseDB_spec (dbName : string) (w : World) :
  exists err w',
    handleUseDB dbName w = (Done err, w')
    /\ (err = None <->
        dbName <> EmptyString
        /\ IsAllowedDB (GetNamespace (se w)) dbName = true)
    /\ (err = None -> w' = with_se (set_db dbName) w)
    /\ (err <> None -> w' = w)
    /\ (dbName = EmptyString ->
        err = Some (Errorf "must have database, the length of dbName is zero"
                      []))
    /\ (dbName <> EmptyString ->
        IsAllowedDB (GetNamespace (se w)) dbName = false ->
        err = Some (NewDefaultError ErrNoDB [])).
Proof.
  unfold handleUseDB. destruct dbName as [|c rest].
  - eexists _, _. split; [reflexivity|].
    repeat split; try done. by intros [? _].
  - cbn [String.length Nat.eqb]. unfold mbind, M_bind, get_se, modify_se.
    destruct (IsAllowedDB (GetNamespace (se w)) (String c rest)) eqn:Hallowed;
      eexists _, _; (split; [reflexivity|]); repeat split; try done.
    by intros [_ ?].
Qed.

(** **** handleSetVariable *)


(** Tests of a name that is written out against the names of the
    [switch]. *)
Ltac decide_names :=
  repeat match goal with
         | |- context [name_in ?a ?l] =>
             let b := eval vm_compute in (name_in a l) in
             match b with
             | true => change (name_in a l) with true
             | false => change (name_in a l) with false
             end
         | |- context [String.eqb ?a ?b] =>
             let r := eval vm_compute in (String.eqb a b) in
             match r with
             | true => change (String.eqb a b) with true
             | false => change (String.eqb a b) with false
             end
         end.

(** X9: a session-scope SET of [wait_timeout], [interactive_timeout],
    [net_write_timeout], [net_read_timeout] or [sql_select_limit], and a
    SET of a [character_set_...] variable to [null], are accepted and do
    nothing: [handleSetVariable] returns [nil] and the world is as it
    was. *)
Theorem handleSetVariable_ignored (v : VariableAssignment) (w : World) :
  IsGlobal v = false ->
  ToLower (Name v) ∈ timeoutVariables
  \/ ToLower (Name v) = "sql_select_limit"%string
  \/ (ToLower (Name v) ∈ charsetVariables
      /\ getVariableExprResult (Value v) = "null"%string) ->
  handleSetVariable v w = (Done None, w).
Proof.
  intros Hg Hname. unfold handleSetVariable. rewrite Hg.
  destruct Hname as [Hto|[Hlimit|[Hcs Hnull]]].
  - unfold timeoutVariables in Hto.
    repeat (apply elem_of_cons in Hto as [->|Hto]);
      [decide_names; reflexivity ..|by apply elem_of_nil in Hto].
  - rewrite Hlimit. decide_names. reflexivity.
  - unfold name_in at 1. rewrite (bool_decide_eq_true_2 _ Hcs), Hnull.
    reflexivity.
Qed.



(** X11: the two ways of setting the charset disagree on a charset whose
    default collation has no id in [CollationIds]. A SET of a
    [character_set_...] variable reads the missing id as zero: it
    succeeds and leaves the session with collation 0. [SET NAMES] with
    the same charset and no COLLATE clause checks the lookup and returns
    the unknown-charset error, the session unchanged. *)
Theorem handleSetVariable_collation_id_missing (v : VariableAssignment)
    (w : World) (cs col : string) :
  IsGlobal v = false -> ExtendValue v = None ->
  getVariableExprResult (Value v) = cs ->
  cs <> "null"%string -> cs <> KeywordDefault ->
  CharsetsToCollationNames !! cs = Some col ->
  CollationIds !! col = None ->
  (ToLower (Name v) ∈ charsetVariables ->
   handleSetVariable v w = (Done None, with_se (set_charset cs 0) w))
  /\ (ToLower (Name v) = "setnames"%string ->
      handleSetVariable v w =
        (Done (Some (NewDefaultError ErrUnknownCharacterSet [cs])), w)).
Proof.
  intros Hg Hext Hval Hnull Hdefault Hcol Hid.
  apply String.eqb_neq in Hnull, Hdefault.
  unfold handleSetVariable. rewrite Hg, Hval. split.
  - intros Hcs. unfold name_in at 1.
    rewrite (bool_decide_eq_true_2 _ Hcs), Hnull, Hdefault, Hcol, Hid.
    reflexivity.
  - intros ->. decide_names.
    unfold mbind, M_bind, get_se. cbn [negb].
    by rewrite Hdefault, Hext, Hcol, Hid.
Qed.

(** **** Statements that do not parse *)

(** X12: on the path without a plan the parser's error never reaches the
    client. A statement that does not parse and is not a SHOW is answered
    with [ErrCmdUnsupport] after a warning, and no backend is called. A
    SHOW that does not parse is sent as it is to the default slice: the
    backend's result is returned when there is one, and a backend error
    is replaced by [ErrCmdUnsupport] as well. *)
Theorem handleQueryWithoutPlan_unparsable (sql : string) (w : World)
    (perr : error) (x : Ext) (t : StatementType) :
  ParseOneStmt sql (ext w) = (Done (inr perr), x) ->
  ctxStmtType (reqCtx w) = Some t ->
  (t <> StmtShow ->
   handleQueryWithoutPlan sql w =
     (Done (None, Some ErrCmdUnsupport),
      {| se := se w; reqCtx := reqCtx w; ext := x;
         trace := trace w ++
           [CallParse sql;
            Warnf "parse parser error, parser: %s, err: %v" [sql]] |}))
  /\ (t = StmtShow ->
      forall o s' x',
        executeSQLNoData (reqCtx w) DefaultSlice (db (se w)) sql (se w, x)
        = (Done o, (s', x')) ->
        handleQueryWithoutPlan sql w =
          (Done match o with
                | inl r => (Some r, None)
                | inr _ => (None, Some ErrCmdUnsupport)
                end,
           {| se := s'; reqCtx := reqCtx w; ext := x';
              trace := trace w ++
                [CallParse sql;
                 CallExecuteSQLNoData DefaultSlice (db (se w)) sql] |})).
Proof.
  intros Hparse Htype.
  unfold handleQueryWithoutPlan, Parse, getStmtType, mbind, M_bind,
    call_ext, get_reqCtx, get_se.
  rewrite Hparse. cbn. rewrite Htype. cbn. split.
  - intros Hne. rewrite bool_decide_eq_false_2 by done.
    unfold warnf, with_event. cbn. by rewrite <- app_assoc.
  - intros -> o s' x' Hexec. rewrite bool_decide_eq_true_2 by done.
    unfold call_session. cbn. rewrite Hexec.
    rewrite <- app_assoc. by destruct o.
Qed.

(** **** A statement the namespace allows *)

(** X13: for a statement the namespace allows, [handleQuery] hands the
    statement, its trailing semicolons cut, to [doQuery] under a request
    context that holds the previewed statement type; it returns what
    [doQuery] returns, result and error; and it reports the statement and
    that error to the session metrics, once, as its last act. *)
Theorem handleQuery_allowed (sql : string) (w w2 : World)
    (x1 x3 : Ext) (t : StatementType) (res : Frame) :
  IsSQLAllowed (GetNamespace (se w)) NewRequestContext (TrimRight sql ";")
    (ext w) = (Done true, x1) ->
  PreviewSql (TrimRight sql ";") = Done t ->
  doQuery (TrimRight sql ";")
    {| se := se w;
       reqCtx := {| ctxStmtType := Some t; ctxFromSlave := None |};
       ext := x1;
       trace := trace w ++
         [CallIsSQLAllowed (TrimRight sql ";");
          CallPreviewSql (TrimRight sql ";")] |}
  = (Done res, w2) ->
  RecordSessionSQLMetrics (reqCtx w2) (se w2) (TrimRight sql ";") res.2
    (ext w2) = (Done tt, x3) ->
  handleQuery sql w =
    (res,
     {| se := se w2; reqCtx := reqCtx w2; ext := x3;
        trace := trace w2 ++
          [CallRecordSessionSQLMetrics (TrimRight sql ";") res.2] |}).
Proof.
  intros Hallowed Hpreview Hdo Hmetrics.
  unfold handleQuery, handleQuery_body, mbind, M_bind, liftW, set_reqCtx,
    get_se, get_reqCtx, call_ext, call_pure, assign. cbn.
  rewrite Hallowed. cbn. rewrite Hpreview. cbn.
  unfold with_event, with_reqCtx. cbn. rewrite <- app_assoc. cbn [app].
  rewrite Hdo. cbn. by rewrite Hmetrics.
Qed.

(** **** What a handler lets out

    A handler only adds to the trace; [emits P m] says that whatever [m]
    adds satisfies [P], whether [m] returns or panics. *)

Definition emits {A} (P : Event -> Prop) (m : M World A) : Prop :=
  forall w, exists t, trace (m w).2 = trace w ++ t /\ Forall P t.

Lemma emits_mono {A} (P Q : Event -> Prop) (m : M World A) :
  (forall e, P e -> Q e) -> emits P m -> emits Q m.
Proof.
  intros Himp Hm w. destruct (Hm w) as (t & Ht & HP).
  exists t. split; [exact Ht|]. by apply (Forall_impl P).
Qed.

Lemma emits_silent {A} (P : Event -> Prop) (m : M World A) :
  (forall w, trace (m w).2 = trace w) -> emits P m.
Proof.
  intros Hm w. exists []. rewrite app_nil_r. split; [apply Hm|constructor].
Qed.

Lemma emits_ret {A} (P : Event -> Prop) (a : A) : emits P (mret a).
Proof. by apply emits_silent. Qed.

Lemma emits_bind {A B} (P : Event -> Prop) (m : M World A)
    (k : A -> M World B) :
  emits P m -> (forall a, emits P (k a)) -> emits P (m ≫= k).
Proof.
  intros Hm Hk w. unfold mbind, M_bind.
  destruct (Hm w) as (t1 & Ht1 & HP1).
  destruct (m w) as [[a|v] w1]; cbn in Ht1.
  - destruct (Hk a w1) as (t2 & Ht2 & HP2).
    exists (t1 ++ t2). rewrite Ht2, Ht1, app_assoc.
    split; [reflexivity|by apply Forall_app].
  - by exists t1.
Qed.

Lemma emits_event {A} (P : Event -> Prop) (m : M World A) (e : Event) :
  P e -> (forall w, trace (m w).2 = trace w ++ [e]) -> emits P m.
Proof.
  intros He Hm w. exists [e]. split; [apply Hm|by repeat constructor].
Qed.

Lemma emits_warnf (P : Event -> Prop) (format : string) (args : list string) :
  P (Warnf format args) -> emits P (warnf format args).
Proof. intros He. by apply (emits_event P _ (Warnf format args)). Qed.

Lemma emits_call_pure {A} (P : Event -> Prop) (e : Event) (o : outcome A) :
  P e -> emits P (call_pure e o).
Proof. intros He. by apply (emits_event P _ e). Qed.

Lemma emits_call_ext {A} (P : Event -> Prop) (e : Event)
    (f : Ext -> outcome A * Ext) :
  P e -> emits P (call_ext e f).
Proof.
  intros He. apply (emits_event P _ e); [exact He|].
  intros w. unfold call_ext. by destruct (f (ext w)).
Qed.

Lemma emits_call_session {A} (P : Event -> Prop) (e : Event)
    (f : SessionExecutor * Ext -> outcome A * (SessionExecutor * Ext)) :
  P e -> emits P (call_session e f).
Proof.
  intros He. apply (emits_event P _ e); [exact He|].
  intros w. unfold call_session. by destruct (f (se w, ext w)) as [o [s x]].
Qed.

(** The steps of a proof that a handler emits only what [P] allows. *)
Ltac emits_step :=
  first
    [ apply emits_ret
    | apply emits_bind; [|intros ?]
    | apply emits_call_ext
    | apply emits_call_session
    | apply emits_call_pure
    | apply emits_warnf
    | by apply emits_silent ].

(** The events of the pinned connections and of the session-variable
    store. *)
Definition sessionEvent (e : Event) : Prop :=
  match e with
  | CallSetSessionVariable _ | CallSetGeneralLogVariable
  | ConnSetAutoCommit _ _ | ConnRecycle _ => True
  | _ => False
  end.

Lemma emits_resetConns (conns : list (string * PooledConnect))
    (err : option error) :
  emits sessionEvent (resetConns conns err).
Proof.
  revert err. induction conns as [|[slice pc] conns IH]; intros err;
    cbn [resetConns]; [apply emits_ret|].
  repeat emits_step; try exact I. apply IH.
Qed.

Lemma emits_handleSetAutoCommit (autocommit : bool) :
  emits sessionEvent (handleSetAutoCommit autocommit).
Proof.
  unfold handleSetAutoCommit. destruct autocommit.
  - repeat emits_step; try exact I.
    + by destruct (0 <? Z.land _ _); emits_step.
    + apply emits_resetConns.
  - repeat emits_step.
Qed.

Lemma emits_handleSetVariable (v : VariableAssignment) :
  emits sessionEvent (handleSetVariable v).
Proof.
  unfold handleSetVariable.
  repeat match goal with
         | |- emits _ (if ?b then _ else _) => destruct b
         | |- emits _ (match ?o with Some _ => _ | None => _ end) =>
             destruct o
         | |- emits _ (match ?o with inl _ => _ | inr _ => _ end) =>
             destruct o
         | |- emits _ (handleSetAutoCommit _) =>
             apply emits_handleSetAutoCommit
         | |- _ => emits_step
         end; exact I.
Qed.

Lemma emits_handleSet (Variables : list VariableAssignment) :
  emits sessionEvent (handleSet Variables).
Proof.
  induction Variables as [|v rest IH]; cbn [handleSet]; [apply emits_ret|].
  apply emits_bind; [apply emits_handleSetVariable|].
  intros [e|]; [apply emits_ret|exact IH].
Qed.

(** X14: a SET statement reaches nothing but the connections the session
    has pinned and its variable store. Whatever the assignments, and
    whether the handler returns or panics, [handleSet] adds to the trace
    only calls of [SetAutoCommit] and [Recycle] on connections and of the
    setters of session variables: nothing is parsed, planned or sent as
    SQL, and no line is logged. *)
Theorem handleSet_emits (Variables : list VariableAssignment) (w : World) :
  exists t,
    trace (handleSet Variables w).2 = trace w ++ t
    /\ Forall sessionEvent t.
Proof. apply emits_handleSet. Qed.

Definition notExecuteIn (e : Event) : Prop := e <> CallExecuteIn.

(** An event is not in a list that is written out without it. *)
Ltac absent Hin :=
  repeat (apply elem_of_cons in Hin as [Hin|Hin]; [discriminate Hin|]);
  by apply elem_of_nil in Hin.

Lemma emits_handleQueryWithoutPlan (sql : string) :
  emits notExecuteIn (handleQueryWithoutPlan sql).
Proof.
  unfold handleQueryWithoutPlan, Parse, getStmtType.
  apply emits_bind; [by apply emits_call_ext|].
  intros [[stmt|vars| | | |dbName|other]|err].
  - repeat emits_step; done.
  - apply (emits_mono sessionEvent); [|apply emits_handleSet].
    by intros [].
  - repeat emits_step; done.
  - repeat emits_step; done.
  - repeat emits_step; done.
  - apply emits_bind; [|intros ?; apply emits_ret].
    apply emits_silent. intros w. unfold handleUseDB.
    destruct (String.length dbName =? 0)%nat; [reflexivity|].
    unfold mbind, M_bind, get_se. cbn.
    by destruct (IsAllowedDB _ _).
  - repeat emits_step.
  - apply emits_bind.
    { apply emits_bind; [by apply emits_silent|].
      intros c. destruct (ctxStmtType c); by apply emits_silent. }
    intros t. repeat emits_step. destruct (bool_decide _).
    + apply emits_bind; [by apply emits_call_session|].
      intros [r|e]; apply emits_ret.
    + repeat emits_step; done.
Qed.

(** X15: [doQuery] executes a plan only after the statement has been
    parsed and its plan built. Whether it returns or panics, [doQuery]
    only adds to the trace; and when what it adds holds a call of
    [ExecuteIn], then the user may run the statement type, the type is
    one that needs a plan, the parser accepted the statement and
    [BuildPlan] returned a plan for it in the session's database. *)
Theorem doQuery_executes_planned (sql : string) (w : World) :
  exists t,
    trace (doQuery sql w).2 = trace w ++ t
    /\ (CallExecuteIn ∈ t ->
        exists ty n x1 p x2,
          ctxStmtType (reqCtx w) = Some ty
          /\ isSQLNotAllowedByUser (se w) ty = false
          /\ CanHandleWithoutPlan ty = false
          /\ ParseOneStmt sql (ext w) = (Done (inl n), x1)
          /\ BuildPlan n (GetNamespace (se w)) (db (se w)) sql x1
             = (Done (inl p), x2)).
Proof.
  unfold doQuery, getStmtType, mbind, M_bind, get_reqCtx, get_se. cbn.
  destruct (ctxStmtType (reqCtx w)) as [ty|] eqn:Hty; cbn;
    [|exists []; rewrite app_nil_r; split;
      [reflexivity|by intros ?%elem_of_nil]].
  destruct (isSQLNotAllowedByUser (se w) ty) eqn:Hro; cbn;
    [exists []; rewrite app_nil_r; split;
      [reflexivity|by intros ?%elem_of_nil]|].
  destruct (CanHandleWithoutPlan ty) eqn:Hplan.
  { destruct (emits_handleQueryWithoutPlan sql w) as (t & Ht & Hnot).
    exists t. split; [exact Ht|].
    intros Hin. rewrite Forall_forall in Hnot. by destruct (Hnot _ Hin). }
  unfold getPlan, Parse, mbind, M_bind, call_ext. cbn.
  destruct (ParseOneStmt sql (ext w)) as [[[n|perr]|v] x1] eqn:Hparse; cbn.
  - destruct (BuildPlan n (GetNamespace (se w)) (db (se w)) sql x1)
      as [[[p|berr]|v] x2] eqn:Hbuild; cbn.
    + unfold set_reqCtx, call_session, warnf, with_event, with_reqCtx.
      destruct (canExecuteFromSlave (se w) sql); cbn;
        match goal with
        | |- context [ExecuteIn ?p ?c ?sx] =>
            destruct (ExecuteIn p c sx) as [[[r|e]|v] [s' x']]
        end; cbn; rewrite <- ?app_assoc; cbn [app];
        eexists; (split; [reflexivity|]); intros _;
        by exists ty, n, x1, p, x2.
    + eexists. rewrite <- app_assoc. split; [reflexivity|].
      intros Hin. cbn in Hin. absent Hin.
    + eexists. rewrite <- app_assoc. split; [reflexivity|].
      intros Hin. cbn in Hin. absent Hin.
  - eexists. split; [reflexivity|]. intros Hin. absent Hin.
  - eexists. split; [reflexivity|]. intros Hin. absent Hin.
Qed.

(** **** The path with a plan *)

(** The world [doQuery] leaves when the parser and the planner have been
    called and have left the outside world as [x]. *)
Definition afterPlanning (sql : string) (w : World) (x : Ext)
    (calls : list Event) : World :=
  {| se := se w; reqCtx := reqCtx w; ext := x; trace := trace w ++ calls |}.

(** X22: when no plan can be had for a statement that needs one,
    [doQuery] returns no result and the error wrapped, and executes
    nothing; the session is as it was. A parser error is wrapped twice,
    by [getPlan] ("parse parser error") and by [doQuery] ("get plan
    error", with the database and the statement), and the planner is not
    called; a planner error is wrapped as "create select plan error" and
    then as "get plan error". *)
Theorem doQuery_no_plan (sql : string) (w : World) (ty : StatementType) :
  ctxStmtType (reqCtx w) = Some ty ->
  isSQLNotAllowedByUser (se w) ty = false ->
  CanHandleWithoutPlan ty = false ->
  (forall perr x,
     ParseOneStmt sql (ext w) = (Done (inr perr), x) ->
     doQuery sql w =
       (Done (None,
              Some (Errorf "get plan error, db: %s, parser: %s, err: %v"
                      [ArgString (db (se w)); ArgString sql;
                       ArgError
                         (Errorf "parse parser error, parser: %s, err: %v"
                            [ArgString sql; ArgError perr])])),
        afterPlanning sql w x [CallParse sql]))
  /\ (forall n x1 berr x2,
        ParseOneStmt sql (ext w) = (Done (inl n), x1) ->
        BuildPlan n (GetNamespace (se w)) (db (se w)) sql x1
        = (Done (inr berr), x2) ->
        doQuery sql w =
          (Done (None,
                 Some (Errorf "get plan error, db: %s, parser: %s, err: %v"
                         [ArgString (db (se w)); ArgString sql;
                          ArgError
                            (Errorf "create select plan error: %v"
                               [ArgError berr])])),
           afterPlanning sql w x2
             [CallParse sql; CallBuildPlan (db (se w)) sql])).
Proof.
  intros Hty Hro Hplan.
  unfold doQuery, getStmtType, getPlan, Parse, mbind, M_bind, get_reqCtx,
    get_se, call_ext, afterPlanning. cbn.
  rewrite Hty. cbn. rewrite Hro, Hplan. split.
  - intros perr x Hparse. by rewrite Hparse.
  - intros n x1 berr x2 Hparse Hbuild. rewrite Hparse. cbn.
    rewrite Hbuild. cbn. by rewrite <- app_assoc.
Qed.

(** The request context [ExecuteIn] is given: the one of the query, with
    [FromSlave] set to 1 when [canExecuteFromSlave] says so. *)
Definition executionContext (sql : string) (w : World) : RequestContext :=
  if canExecuteFromSlave (se w) sql
  then {| ctxStmtType := ctxStmtType (reqCtx w); ctxFromSlave := Some 1 |}
  else reqCtx w.

(** X23: once the plan is built, [doQuery] executes it under the request
    context of the query, in which [FromSlave] is set to 1 exactly when
    [canExecuteFromSlave] answers true for the session and the statement.
    A result comes back with its status modified for the session as the
    execution left it; an error of the execution comes back as it is,
    not wrapped, with no result and a warning in the log. *)
Theorem doQuery_executes (sql : string) (w : World) (ty : StatementType)
    (n : StmtNode) (p : Plan) (x1 x2 x3 : Ext) (s3 : SessionExecutor)
    (out : Result + error) :
  ctxStmtType (reqCtx w) = Some ty ->
  isSQLNotAllowedByUser (se w) ty = false ->
  CanHandleWithoutPlan ty = false ->
  ParseOneStmt sql (ext w) = (Done (inl n), x1) ->
  BuildPlan n (GetNamespace (se w)) (db (se w)) sql x1 = (Done (inl p), x2) ->
  ExecuteIn p (executionContext sql w) (se w, x2) = (Done out, (s3, x3)) ->
  doQuery sql w =
    (Done match out with
          | inl r => (Some (modifyResultStatus r s3), None)
          | inr err => (None, Some err)
          end,
     {| se := s3; reqCtx := executionContext sql w; ext := x3;
        trace := trace w ++
          [CallParse sql; CallBuildPlan (db (se w)) sql; CallExecuteIn]
          ++ match out with
             | inl _ => []
             | inr _ => [Warnf "execute select: %s" []]
             end |}).
Proof.
  destruct w as [s [st fs] x t]. cbn. intros -> Hro Hplan Hparse Hbuild.
  unfold doQuery, getStmtType, getPlan, Parse, mbind, M_bind, get_reqCtx,
    get_se, call_ext, executionContext. cbn.
  rewrite Hro, Hplan. cbn. rewrite Hparse. cbn. rewrite Hbuild. cbn.
  unfold set_reqCtx, call_session, warnf, with_event, with_reqCtx.
  destruct (canExecuteFromSlave s sql); cbn; intros ->; cbn;
    destruct out; cbn; rewrite <- ?app_assoc, ?app_nil_r; reflexivity.
Qed.

(** **** The error of SET autocommit = 1 *)






End HandlerProperties.

(** *** handleStmtPrepare *)

Section Prepare.
Context `{Collaborators}.

(** [calcParams] and [Stmt.ResetParams] belong to a file of the package
    that is not among the sources at hand, and [exeLogger.Debugf] to the
    logging package; the handler is embedded over any three such
    functions. The debug line goes to the outside world; the trace keeps
    the warnings. *)
Variable calcParams : string -> Z * list Z + error.
Variable ResetParams : Stmt -> Stmt.
Variable Debugf : string -> list string -> Ext -> Ext.

Definition debugf (format : string) (args : list string) : M World unit :=
  fun w =>
    (Done tt,
     {| se := se w; reqCtx := reqCtx w;
        ext := Debugf format args (ext w); trace := trace w |}).

Definition wrap_uint32 (z : Z) : Z := z mod 2 ^ 32.

Definition set_stmtID (x : Z) (s : SessionExecutor) : SessionExecutor :=
  {| namespace := namespace s; user := user s; db := db s;
     status := status s; charset := charset s; collation := collation s;
     txConns := txConns s; stmtID := x; stmts := stmts s;
     sessionVariables := sessionVariables s |}.

Definition handleStmtPrepare (sql : string)
  : M World (option Stmt * option error) :=
  s ← get_se;
  debugf "namespace: %s use prepare, parser: %s"
    [GetName (GetNamespace s); sql];;
  let sql := TrimRight sql ";" in
  match calcParams sql with
  | inr err =>
      s ← get_se;
      warnf "prepare calc params failed, namespace: %s, parser: %s"
        [GetName (GetNamespace s); sql];;
      mret (None, Some err)
  | inl (count, offs) =>
      s ← get_se;
      let stmt := {| stmtId := stmtID s; stmtSql := sql;
                     paramCount := count; offsets := offs;
                     columnCount := 0 |} in
      modify_se (set_stmtID (wrap_uint32 (stmtID s + 1)));;
      let stmt := ResetParams stmt in
      modify_se (fun s => set_stmts (<[stmtId stmt := stmt]> (stmts s)) s);;
      mret (Some stmt, None)
  end.

(** [ResetParams] leaves the id of the statement alone. *)
Definition keepsId : Prop := forall stmt, stmtId (ResetParams stmt) = stmtId stmt.

(** X16: a successful PREPARE gives the statement the id the counter
    held, stores it under that id over whatever was there, leaves every
    other entry of the table alone, and moves the counter on by one,
    back to zero after [2 ^ 32 - 1]. Nothing else of the session changes
    and nothing is added to the trace. *)
Theorem handleStmtPrepare_registers (sql : string) (w : World)
    (count : Z) (offs : list Z) :
  keepsId ->
  calcParams (TrimRight sql ";") = inl (count, offs) ->
  exists stmt w',
    handleStmtPrepare sql w = (Done (Some stmt, None), w')
    /\ stmtId stmt = stmtID (se w)
    /\ stmts (se w') !! stmtID (se w) = Some stmt
    /\ (forall id, id <> stmtID (se w) ->
                   stmts (se w') !! id = stmts (se w) !! id)
    /\ stmtID (se w') = (stmtID (se w) + 1) mod 2 ^ 32
    /\ se w' = set_stmts (stmts (se w'))
                 (set_stmtID (stmtID (se w')) (se w))
    /\ trace w' = trace w.
Proof.
  intros Hkeeps Hcalc.
  unfold handleStmtPrepare, mbind, M_bind, get_se, debugf, modify_se. cbn.
  rewrite Hcalc. cbn. eexists _, _. split; [reflexivity|]. cbn.
  rewrite !Hkeeps. cbn.
  split; [reflexivity|]. split; [apply lookup_insert_eq|].
  split; [intros id Hid; by apply lookup_insert_ne|].
  by repeat split.
Qed.

(** X17: a PREPARE whose parameters cannot be counted registers
    nothing: the error of [calcParams] is returned as it is, with no
    statement; the session, counter and table included, is as it was,
    and the trace has one more line, the warning. *)
Theorem handleStmtPrepare_refused (sql : string) (w : World) (err : error) :
  calcParams (TrimRight sql ";") = inr err ->
  exists w',
    handleStmtPrepare sql w = (Done (None, Some err), w')
    /\ se w' = se w
    /\ trace w' =
       trace w ++
         [Warnf "prepare calc params failed, namespace: %s, parser: %s"
            [GetName (GetNamespace (se w)); TrimRight sql ";"]].
Proof.
  intros Hcalc.
  unfold handleStmtPrepare, mbind, M_bind, get_se, debugf, warnf. cbn.
  rewrite Hcalc. cbn. by eexists.
Qed.

(** **** PREPARE, then CLOSE *)

(** [byte(v)]: the low eight bits. *)
Definition byte_of_Z (z : Z) : byte :=
  match Byte.of_N (Z.to_N (z mod 256)) with
  | Some b => b
  | None => x00
  end.

(** [binary.LittleEndian.PutUint32], the bytes a client sends for an
    id. *)
Definition PutUint32 (v : Z) : list byte :=
  [byte_of_Z v; byte_of_Z (Z.shiftr v 8); byte_of_Z (Z.shiftr v 16);
   byte_of_Z (Z.shiftr v 24)].

Lemma byte_val_of_Z (z : Z) : byte_val (byte_of_Z z) = z mod 2 ^ 8.
Proof.
  unfold byte_val, byte_of_Z.
  pose proof (Z.mod_pos_bound z 256 eq_refl) as Hrange.
  destruct (Byte.of_N (Z.to_N (z mod 256))) as [b|] eqn:Hb.
  - apply Byte.to_of_N in Hb. rewrite Hb, Z2N.id by lia. reflexivity.
  - apply Byte.of_N_None_iff in Hb. lia.
Qed.

Lemma testbit_byte (z n : Z) :
  0 <= n ->
  Z.testbit (byte_val (byte_of_Z z)) n = (n <? 8) && Z.testbit z n.
Proof.
  intros Hn. rewrite byte_val_of_Z.
  destruct (Z.ltb_spec n 8).
  - by rewrite Z.mod_pow2_bits_low by lia.
  - by rewrite Z.mod_pow2_bits_high by lia.
Qed.

Lemma testbit_shifted_byte (z k n : Z) :
  0 <= k -> 0 <= n ->
  Z.testbit (Z.shiftl (byte_val (byte_of_Z (Z.shiftr z k))) k) n
  = (k <=? n) && (n <? k + 8) && Z.testbit z n.
Proof.
  intros Hk Hn. rewrite Z.shiftl_spec by done.
  destruct (Z.leb_spec k n).
  - rewrite testbit_byte, Z.shiftr_spec by lia.
    replace (n - k + k) with n by lia.
    by destruct (Z.ltb_spec (n - k) 8), (Z.ltb_spec n (k + 8)); try lia.
  - by rewrite Z.testbit_neg_r by lia.
Qed.

Lemma Uint32_PutUint32 (v : Z) :
  0 <= v < 2 ^ 32 ->
  LittleEndian_Uint32 (byte_of_Z v) (byte_of_Z (Z.shiftr v 8))
    (byte_of_Z (Z.shiftr v 16)) (byte_of_Z (Z.shiftr v 24)) = v.
Proof.
  intros Hv. unfold LittleEndian_Uint32. apply Z.bits_inj'. intros n Hn.
  rewrite !Z.lor_spec, !testbit_shifted_byte, testbit_byte by lia.
  destruct (Z.ltb_spec n 32) as [Hlow|Hhigh].
  - destruct (Z.ltb_spec n 8), (Z.leb_spec 8 n), (Z.ltb_spec n (8 + 8)),
      (Z.leb_spec 16 n), (Z.ltb_spec n (16 + 8)), (Z.leb_spec 24 n),
      (Z.ltb_spec n (24 + 8)); try lia; cbn;
      by rewrite ?orb_false_r.
  - assert (Z.testbit v n = false) as ->.
    { destruct (Z.eq_dec v 0) as [->|Hv0]; [apply Z.testbit_0_l|].
      apply Z.bits_above_log2; [lia|].
      assert (Z.log2 v < 32) by (apply Z.log2_lt_pow2; lia). lia. }
    by rewrite !andb_false_r.
Qed.

(** X18: PREPARE followed by CLOSE of the id it returned undoes the
    registration. With the counter in the range of [uint32], closing with
    the little-endian bytes of the new statement's id (whatever follows
    them in the payload) leaves the table as it was before the PREPARE
    less the entry under that id; when the id was free, the table is
    exactly as it was. *)
Theorem handleStmtPrepare_then_close (sql : string) (w : World)
    (count : Z) (offs : list Z) (rest : list byte) :
  keepsId ->
  0 <= stmtID (se w) < 2 ^ 32 ->
  calcParams (TrimRight sql ";") = inl (count, offs) ->
  exists stmt w1 w2,
    handleStmtPrepare sql w = (Done (Some stmt, None), w1)
    /\ handleStmtClose (PutUint32 (stmtId stmt) ++ rest) w1 = (Done None, w2)
    /\ stmts (se w2) = delete (stmtID (se w)) (stmts (se w))
    /\ (stmts (se w) !! stmtID (se w) = None ->
        stmts (se w2) = stmts (se w)).
Proof.
  intros Hkeeps Hrange Hcalc.
  unfold handleStmtPrepare, mbind, M_bind, get_se, debugf, modify_se. cbn.
  rewrite Hcalc. cbn. eexists _, _, _. split; [reflexivity|].
  rewrite !Hkeeps. cbn.
  unfold mbind, M_bind, modify_se. cbn.
  rewrite (Uint32_PutUint32 _ Hrange).
  split; [reflexivity|]. cbn.
  rewrite delete_insert_eq. split; [reflexivity|].
  intros Hfree. by apply delete_id.
Qed.

Lemma next_id_differs (id : Z) :
  0 <= id < 2 ^ 32 -> wrap_uint32 (id + 1) <> id.
Proof.
  intros Hid. unfold wrap_uint32.
  destruct (Z.eq_dec id (2 ^ 32 - 1)) as [->|Hlast]; [by vm_compute|].
  rewrite Z.mod_small by lia. lia.
Qed.

(** X28: two PREPAREs in a row do not get in each other's way. With the
    counter in the range of [uint32], the two statements get different
    ids, and after the second PREPARE the table holds both, each under
    its own id. *)
Theorem handleStmtPrepare_twice (sql1 sql2 : string) (w : World)
    (count1 count2 : Z) (offs1 offs2 : list Z) :
  keepsId ->
  0 <= stmtID (se w) < 2 ^ 32 ->
  calcParams (TrimRight sql1 ";") = inl (count1, offs1) ->
  calcParams (TrimRight sql2 ";") = inl (count2, offs2) ->
  exists stmt1 w1 stmt2 w2,
    handleStmtPrepare sql1 w = (Done (Some stmt1, None), w1)
    /\ handleStmtPrepare sql2 w1 = (Done (Some stmt2, None), w2)
    /\ stmtId stmt1 <> stmtId stmt2
    /\ stmts (se w2) !! stmtId stmt1 = Some stmt1
    /\ stmts (se w2) !! stmtId stmt2 = Some stmt2.
Proof.
  intros Hkeeps Hrange Hcalc1 Hcalc2.
  unfold handleStmtPrepare, mbind, M_bind, get_se, debugf, modify_se. cbn.
  rewrite Hcalc1. cbn. eexists _, _, _, _. split; [reflexivity|]. cbn.
  rewrite Hcalc2. cbn. split; [reflexivity|]. cbn.
  rewrite !Hkeeps. cbn.
  pose proof (next_id_differs _ Hrange) as Hnext.
  split; [by apply not_eq_sym|].
  split; [|apply lookup_insert_eq].
  rewrite lookup_insert_ne by done. apply lookup_insert_eq.
Qed.

End Prepare.

(** *** handleFieldList *)

Section FieldList.
Context `{Collaborators}.

(** What the handler uses of the session, the namespace, the router and
    the backend, none of it among the sources at hand: the getters of the
    session, [Namespace.IsRWSplit], [Namespace.GetDefaultPhyDB], the
    chain [GetRouter().GetRule(db, table).GetSlice(0)] (which may panic),
    and the four calls that reach a backend connection. *)
Variable Field : Type.
Variable GetDatabase : SessionExecutor -> string.
Variable GetCharset : SessionExecutor -> string.
Variable GetCollationID : SessionExecutor -> Z.
Variable GetVariables : SessionExecutor -> SessionVariables.
Variable IsRWSplit : Namespace -> string -> bool.
Variable GetDefaultPhyDB : Namespace -> string -> string + error.
Variable ruleSlice : Namespace -> string -> string -> outcome string.
Variable getBackendConn :
  string -> bool -> SessionExecutor * Ext ->
  outcome (PooledConnect + error) * (SessionExecutor * Ext).
Variable recycleBackendConn :
  PooledConnect -> bool -> SessionExecutor * Ext ->
  outcome unit * (SessionExecutor * Ext).
Variable initBackendConn :
  PooledConnect -> string -> string -> Z -> SessionVariables ->
  Ext -> outcome (option error) * Ext.
Variable FieldList :
  PooledConnect -> string -> string -> Ext ->
  outcome (list Field + error) * Ext.

(** The calls that reach a backend connection, in the order they are
    made. *)
Inductive BackendCall :=
  | CallGetBackendConn (slice : string) (rwSplit : bool)
  | CallInitBackendConn (pc : PooledConnect) (phyDB : string)
  | CallFieldList (pc : PooledConnect) (table wildcard : string)
  | CallRecycleBackendConn (pc : PooledConnect).

Record Backends := {
  session : SessionExecutor;
  outside : Ext;
  calls : list BackendCall
}.

Definition get_session : M Backends SessionExecutor :=
  fun b => (Done (session b), b).

Definition lift_outcome {A} (o : outcome A) : M Backends A :=
  fun b => (o, b).

Definition call_backend {A} (c : BackendCall)
    (f : SessionExecutor * Ext -> outcome A * (SessionExecutor * Ext))
  : M Backends A :=
  fun b =>
    let '(o, (s, x)) := f (session b, outside b) in
    (o, {| session := s; outside := x; calls := calls b ++ [c] |}).

Definition call_conn {A} (c : BackendCall) (f : Ext -> outcome A * Ext)
  : M Backends A :=
  fun b =>
    let '(o, x) := f (outside b) in
    (o, {| session := session b; outside := x; calls := calls b ++ [c] |}).

(** [defer f()] before [body]: [f] runs when [body] has returned and
    when it has panicked; a panic of [f] takes the place of the outcome
    of [body]. *)
Definition with_defer {S A} (deferred : M S unit) (body : M S A) : M S A :=
  fun s =>
    let '(o, s1) := body s in
    match deferred s1 with
    | (Done _, s2) => (o, s2)
    | (Panicked v, s2) => (Panicked v, s2)
    end.

(** [bytes.IndexByte]: the index of the first [c], or -1. *)
Fixpoint IndexByte (data : list byte) (c : byte) : Z :=
  match data with
  | [] => -1
  | b :: rest =>
      if Byte.eqb b c then 0
      else let i := IndexByte rest c in if i <? 0 then -1 else i + 1
  end.

Definition sliceBounds : PanicValue :=
  PanicError "runtime error: slice bounds out of range".

Definition handleFieldList (data : list byte)
  : M Backends (option (list Field) * option error) :=
  let index := IndexByte data x00 in
  if (index <? 0) || (Z.of_nat (length data) <? index) then panic sliceBounds
  else
    let table := string_of_list_byte (take (Z.to_nat index) data) in
    if Z.of_nat (length data) <? index + 1 then panic sliceBounds
    else
      let wildcard :=
        string_of_list_byte (drop (Z.to_nat (index + 1)) data) in
      s ← get_session;
      sliceName ← lift_outcome
                    (ruleSlice (GetNamespace s) (GetDatabase s) table);
      s ← get_session;
      let rwSplit := IsRWSplit (GetNamespace s) (user s) in
      pc ← call_backend (CallGetBackendConn sliceName rwSplit)
             (getBackendConn sliceName rwSplit);
      match pc with
      | inr err => mret (None, Some err)
      | inl pc =>
          with_defer
            (call_backend (CallRecycleBackendConn pc)
               (recycleBackendConn pc false))
            (s ← get_session;
             match GetDefaultPhyDB (GetNamespace s) (GetDatabase s) with
             | inr err => mret (None, Some err)
             | inl phyDB =>
                 s ← get_session;
                 err ← call_conn (CallInitBackendConn pc phyDB)
                         (initBackendConn pc phyDB (GetCharset s)
                            (GetCollationID s) (GetVariables s));
                 match err with
                 | Some err => mret (None, Some err)
                 | None =>
                     fs ← call_conn (CallFieldList pc table wildcard)
                            (FieldList pc table wildcard);
                     match fs with
                     | inr err => mret (None, Some err)
                     | inl fs => mret (Some fs, None)
                     end
                 end
             end)
      end.

(** A recycle call is not in a list that is written out without one. *)
Ltac absent_call Hin :=
  repeat (apply elem_of_cons in Hin as [Hin|Hin]; [discriminate Hin|]);
  by apply elem_of_nil in Hin.

Lemma IndexByte_absent (data : list byte) (c : byte) :
  c ∉ data -> IndexByte data c = -1.
Proof.
  induction data as [|b rest IH]; [reflexivity|].
  intros Hnot. apply not_elem_of_cons in Hnot as [Hne Hrest].
  cbn [IndexByte]. rewrite (IH Hrest).
  destruct (Byte.eqb b c) eqn:Heq; [|reflexivity].
  apply Byte.byte_dec_bl in Heq. by subst.
Qed.

Lemma IndexByte_first (before after : list byte) (c : byte) :
  c ∉ before ->
  IndexByte (before ++ c :: after) c = Z.of_nat (length before).
Proof.
  induction before as [|b rest IH]; intros Hnot.
  - cbn. assert (Byte.eqb c c = true) as -> by by apply Byte.byte_dec_lb.
    reflexivity.
  - apply not_elem_of_cons in Hnot as [Hne Hrest].
    cbn [app IndexByte length]. rewrite (IH Hrest).
    destruct (Byte.eqb b c) eqn:Heq.
    + apply Byte.byte_dec_bl in Heq. by subst.
    + destruct (Z.ltb_spec (Z.of_nat (length rest)) 0); lia.
Qed.

(** X19: a payload without a zero byte makes [handleFieldList] panic
    on its first slice expression, [data[0:index]] with [index = -1]:
    no rule is looked up, no connection is taken, and nothing has
    changed. The handler has no [recover] of its own. *)
Theorem handleFieldList_no_terminator (data : list byte) (b : Backends) :
  x00 ∉ data ->
  handleFieldList data b = (Panicked sliceBounds, b).
Proof.
  intros Hnot. unfold handleFieldList.
  by rewrite (IndexByte_absent _ _ Hnot).
Qed.

Lemma handleFieldList_cut (table wildcard : list byte) :
  x00 ∉ table ->
  let data := table ++ x00 :: wildcard in
  IndexByte data x00 = Z.of_nat (length table)
  /\ take (Z.to_nat (Z.of_nat (length table))) data = table
  /\ drop (Z.to_nat (Z.of_nat (length table) + 1)) data = wildcard
  /\ (Z.of_nat (length table) <? 0) = false
  /\ (Z.of_nat (length data) <? Z.of_nat (length table)) = false
  /\ (Z.of_nat (length data) <? Z.of_nat (length table) + 1) = false.
Proof.
  intros Hnot data. subst data.
  split; [by apply IndexByte_first|].
  rewrite Nat2Z.id, take_app_length.
  replace (Z.to_nat (Z.of_nat (length table) + 1)) with (length table + 1)%nat
    by lia.
  rewrite <- drop_drop, drop_app_length. cbn [drop].
  rewrite length_app. cbn [length].
  repeat split; apply Z.ltb_ge; lia.
Qed.

(** X20: a connection that [handleFieldList] has taken is given back,
    whatever happens next. For a payload with a zero byte, once the rule
    has named a slice and [getBackendConn] has returned a connection, the
    calls of the handler end with [recycleBackendConn] on that
    connection, and it is the only recycle call: this holds when the
    physical database is unknown, when the connection cannot be
    initialised, when the field list fails, and when one of these calls
    panics. *)
Theorem handleFieldList_recycles (table wildcard : list byte) (b : Backends)
    (slice : string) (pc : PooledConnect) (s1 : SessionExecutor) (x1 : Ext) :
  x00 ∉ table ->
  ruleSlice (GetNamespace (session b)) (GetDatabase (session b))
    (string_of_list_byte table) = Done slice ->
  getBackendConn slice (IsRWSplit (GetNamespace (session b)) (user (session b)))
    (session b, outside b) = (Done (inl pc), (s1, x1)) ->
  exists t,
    calls (handleFieldList (table ++ x00 :: wildcard) b).2
    = calls b
      ++ CallGetBackendConn slice
           (IsRWSplit (GetNamespace (session b)) (user (session b)))
         :: t ++ [CallRecycleBackendConn pc]
    /\ forall pc', CallRecycleBackendConn pc' ∉ t.
Proof.
  intros Hnot Hrule Hconn.
  destruct (handleFieldList_cut table wildcard Hnot)
    as (Hindex & Htake & Hdrop & Hlow & Hhigh & Hnext).
  unfold handleFieldList. rewrite Hindex, Hlow, Hhigh, Hnext, Htake, Hdrop.
  cbn [orb]. unfold mbind, M_bind, get_session, lift_outcome, call_backend.
  cbn. rewrite Hrule. cbn. rewrite Hconn. cbn.
  unfold with_defer, call_conn, mbind, M_bind, mret, M_ret. cbn.
  destruct (GetDefaultPhyDB (GetNamespace s1) (GetDatabase s1))
    as [phyDB|err]; cbn.
  - destruct (initBackendConn pc phyDB (GetCharset s1) (GetCollationID s1)
                (GetVariables s1) x1) as [[[e|]|v] x2]; cbn.
    + destruct (recycleBackendConn pc false (s1, x2)) as [[[]|v] [s3 x3]];
        cbn; exists [CallInitBackendConn pc phyDB];
        rewrite <- !app_assoc; (split; [reflexivity|]);
        intros pc' Hin; absent_call Hin.
    + destruct (FieldList pc (string_of_list_byte table)
                  (string_of_list_byte wildcard) x2) as [[[fs|e]|v] x3]; cbn;
        destruct (recycleBackendConn pc false (s1, x3)) as [[[]|v'] [s4 x4]];
        cbn;
        exists [CallInitBackendConn pc phyDB;
                CallFieldList pc (string_of_list_byte table)
                  (string_of_list_byte wildcard)];
        rewrite <- !app_assoc; (split; [reflexivity|]);
        intros pc' Hin; absent_call Hin.
    + destruct (recycleBackendConn pc false (s1, x2)) as [[[]|v'] [s3 x3]];
        cbn; exists [CallInitBackendConn pc phyDB];
        rewrite <- !app_assoc; (split; [reflexivity|]);
        intros pc' Hin; absent_call Hin.
  - destruct (recycleBackendConn pc false (s1, x1)) as [[[]|v] [s3 x3]];
      cbn; exists []; rewrite <- !app_assoc; (split; [reflexivity|]);
      intros pc' Hin; absent_call Hin.
Qed.

(** X21: the payload is cut at its first zero byte. When every call
    succeeds, [handleFieldList] returns the fields the backend lists for
    the table named by the bytes before that zero byte, with all the
    bytes after it (further zero bytes included) as the wildcard; its
    calls are, in this order: take a connection on the slice of the rule,
    initialise it for the physical database, list the fields, give the
    connection back. *)
Theorem handleFieldList_fields (table wildcard : list byte) (b : Backends)
    (slice phyDB : string) (pc : PooledConnect) (s1 s2 : SessionExecutor)
    (x1 x2 x3 x4 : Ext) (fs : list Field) :
  x00 ∉ table ->
  ruleSlice (GetNamespace (session b)) (GetDatabase (session b))
    (string_of_list_byte table) = Done slice ->
  getBackendConn slice (IsRWSplit (GetNamespace (session b)) (user (session b)))
    (session b, outside b) = (Done (inl pc), (s1, x1)) ->
  GetDefaultPhyDB (GetNamespace s1) (GetDatabase s1) = inl phyDB ->
  initBackendConn pc phyDB (GetCharset s1) (GetCollationID s1)
    (GetVariables s1) x1 = (Done None, x2) ->
  FieldList pc (string_of_list_byte table) (string_of_list_byte wildcard) x2
  = (Done (inl fs), x3) ->
  recycleBackendConn pc false (s1, x3) = (Done tt, (s2, x4)) ->
  handleFieldList (table ++ x00 :: wildcard) b
  = (Done (Some fs, None),
     {| session := s2; outside := x4;
        calls := calls b ++
          [CallGetBackendConn slice
             (IsRWSplit (GetNamespace (session b)) (user (session b)));
           CallInitBackendConn pc phyDB;
           CallFieldList pc (string_of_list_byte table)
             (string_of_list_byte wildcard);
           CallRecycleBackendConn pc] |}).
Proof.
  intros Hnot Hrule Hconn Hphy Hinit Hlist Hrecycle.
  destruct (handleFieldList_cut table wildcard Hnot)
    as (Hindex & Htake & Hdrop & Hlow & Hhigh & Hnext).
  unfold handleFieldList. rewrite Hindex, Hlow, Hhigh, Hnext, Htake, Hdrop.
  cbn [orb]. unfold mbind, M_bind, get_session, lift_outcome, call_backend.
  cbn. rewrite Hrule. cbn. rewrite Hconn. cbn.
  unfold with_defer, call_conn, mbind, M_bind, mret, M_ret. cbn.
  rewrite Hphy. cbn. rewrite Hinit. cbn. rewrite Hlist. cbn.
  rewrite Hrecycle. by rewrite <- !app_assoc.
Qed.

End FieldList.

(** *** handleShow *)

Module Show.

(** [ast.ShowStmtType]: the kinds the [switch] names, and the others. *)
Inductive ShowStmtType :=
  | ShowDatabases
  | ShowTables
  | ShowColumns
  | ShowIndex
  | ShowTriggers
  | ShowCreateTable
  | ShowStatus
  | ShowVariables
  | ShowOther.

(** [ast.TableName]: the two names, each by the text [CIStr.String]
    returns. *)
Record TableName := { Schema : string; Name : string }.

(** The fields of [ast.ShowStmt] the handler reads and writes. *)
Record ShowStmt := {
  Tp : ShowStmtType;
  DBName : string;
  Table : option TableName
}.

(** A statement sent to a slice, by the function that sent it. *)
Inductive Query :=
  | ExecuteSQL_query (slice db sql : string)
  | executeSQLNoData_query (slice db sql : string).

Section Handler.
Context `{Collaborators}.

(** The session, the statement node (the handler rewrites it in place),
    the outside world and the statements sent so far. *)
Record ShowWorld := {
  session : SessionExecutor;
  stmt : ShowStmt;
  outside : Ext;
  queries : list Query
}.

(** What the handler uses that is not among the sources at hand.
    [GetDefaultPhyDB] returns a name and an error; [Restore] is the text
    [stmt.Restore] writes into the builder. *)
Variable GetAllowedDBs : Namespace -> list string.
Variable createShowDatabaseResult :
  list string -> option Result * option error.
Variable createShowGeneralLogResult : Result.
Variable GetDefaultPhyDB : Namespace -> string -> string * option error.
Variable Restore : ShowStmt -> string.
Variable ExecuteSQL :
  RequestContext -> string -> string -> string ->
  SessionExecutor * Ext -> outcome (Result + error) * (SessionExecutor * Ext).

(** [strings.Contains]. *)
Fixpoint Contains (s substr : string) : bool :=
  String.prefix substr s
  || match s with
     | EmptyString => false
     | String _ s' => Contains s' substr
     end.

Definition send (q : Query)
    (f : SessionExecutor * Ext ->
         outcome (Result + error) * (SessionExecutor * Ext))
  : M ShowWorld (Result + error) :=
  fun w =>
    let '(o, (s, x)) := f (session w, outside w) in
    (o, {| session := s; stmt := stmt w; outside := x;
           queries := queries w ++ [q] |}).

Definition get_session : M ShowWorld SessionExecutor :=
  fun w => (Done (session w), w).

Definition get_stmt : M ShowWorld ShowStmt := fun w => (Done (stmt w), w).

Definition set_stmt (st : ShowStmt) : M ShowWorld unit :=
  fun w =>
    (Done tt, {| session := session w; stmt := st; outside := outside w;
                 queries := queries w |}).

Definition executeError (sql : string) (err : error) : error :=
  Errorf "execute parser error, parser: %s, err: %v"
    [ArgString sql; ArgError err].

(** The [default] branch, also reached by [fallthrough]. *)
Definition executeOnDefaultSlice (reqCtx : RequestContext) (sql exeSql : string)
  : M ShowWorld (option Result * option error) :=
  s ← get_session;
  r ← send (ExecuteSQL_query DefaultSlice (db s) exeSql)
        (ExecuteSQL reqCtx DefaultSlice (db s) exeSql);
  match r with
  | inr err => mret (None, Some (executeError sql err))
  | inl r => s ← get_session; mret (Some (modifyResultStatus r s), None)
  end.

Definition handleShow (reqCtx : RequestContext) (sql : string)
  : M ShowWorld (option Result * option error) :=
  st ← get_stmt;
  match Tp st with
  | ShowDatabases =>
      s ← get_session;
      mret (createShowDatabaseResult (GetAllowedDBs (GetNamespace s)))
  | ShowTables | ShowColumns | ShowIndex | ShowTriggers | ShowCreateTable =>
      s ← get_session;
      let phyDB := (GetDefaultPhyDB (GetNamespace s) (db s)).1 in
      let change := false in
      let '(st, change) :=
        if String.eqb (DBName st) (db s)
        then ({| Tp := Tp st; DBName := phyDB; Table := Table st |}, true)
        else (st, change) in
      let '(st, change) :=
        match Table st with
        | Some t =>
            if String.eqb (Schema t) (db s)
            then ({| Tp := Tp st; DBName := DBName st;
                     Table := Some {| Schema := phyDB; Name := Name t |} |},
                  true)
            else (st, change)
        | None => (st, change)
        end in
      let '(st, change) :=
        match Tp st, Table st with
        | ShowTriggers, Some t =>
            if String.eqb (Name t) (db s)
            then ({| Tp := Tp st; DBName := DBName st;
                     Table := Some {| Schema := Schema t; Name := phyDB |} |},
                  true)
            else (st, change)
        | _, _ => (st, change)
        end in
      set_stmt st;;
      let exeSql := if change then Restore st else sql in
      executeOnDefaultSlice reqCtx sql exeSql
  | ShowStatus =>
      s ← get_session;
      r ← send (executeSQLNoData_query DefaultSlice (db s) sql)
            (executeSQLNoData reqCtx DefaultSlice (db s) sql);
      match r with
      | inr err => mret (None, Some (executeError sql err))
      | inl r => mret (Some r, None)
      end
  | ShowVariables =>
      if Contains sql gaeaGeneralLogVariable
      then mret (Some createShowGeneralLogResult, None)
      else executeOnDefaultSlice reqCtx sql sql
  | ShowOther => executeOnDefaultSlice reqCtx sql sql
  end.

Definition tableKind (tp : ShowStmtType) : bool :=
  match tp with
  | ShowTables | ShowColumns | ShowIndex | ShowTriggers | ShowCreateTable =>
      true
  | _ => false
  end.

(** What [handleShow] returns for the outcome of [ExecuteSQL]. *)
Definition answer (sql : string) (s : SessionExecutor)
    (out : Result + error) : option Result * option error :=
  match out with
  | inl r => (Some (modifyResultStatus r s), None)
  | inr err => (None, Some (executeError sql err))
  end.

(** X25: SHOW DATABASES and a SHOW VARIABLES whose text holds the name
    of the general-log variable are answered by the proxy itself: the
    first with the databases the namespace allows, the second with the
    general-log result. Nothing is sent to a backend and nothing
    changes. *)
Theorem handleShow_local (reqCtx : RequestContext) (sql : string)
    (w : ShowWorld) :
  (Tp (stmt w) = ShowDatabases ->
   handleShow reqCtx sql w =
     (Done (createShowDatabaseResult
              (GetAllowedDBs (GetNamespace (session w)))), w))
  /\ (Tp (stmt w) = ShowVariables ->
      Contains sql gaeaGeneralLogVariable = true ->
      handleShow reqCtx sql w =
        (Done (Some createShowGeneralLogResult, None), w)).
Proof.
  unfold handleShow, mbind, M_bind, get_stmt, get_session. cbn. split.
  - by intros ->.
  - by intros -> ->.
Qed.

(** X26: a SHOW TABLES, COLUMNS, INDEX, TRIGGERS or CREATE TABLE that
    does not name the session's database (not as its database, not as
    the schema of its table, and for TRIGGERS not as the name of its
    table) is sent to the default slice word for word as the client
    wrote it, and the statement node is left as it was. *)
Theorem handleShow_verbatim (reqCtx : RequestContext) (sql : string)
    (w : ShowWorld) (out : Result + error) (s' : SessionExecutor) (x' : Ext) :
  tableKind (Tp (stmt w)) = true ->
  DBName (stmt w) <> db (session w) ->
  (forall t, Table (stmt w) = Some t ->
             Schema t <> db (session w)
             /\ (Tp (stmt w) = ShowTriggers -> Name t <> db (session w))) ->
  ExecuteSQL reqCtx DefaultSlice (db (session w)) sql
    (session w, outside w) = (Done out, (s', x')) ->
  handleShow reqCtx sql w =
    (Done (answer sql s' out),
     {| session := s'; stmt := stmt w; outside := x';
        queries := queries w ++
          [ExecuteSQL_query DefaultSlice (db (session w)) sql] |}).
Proof.
  destruct w as [s [tp dbName table] x qs]. cbn.
  intros Hkind Hdb Htable Hexec. apply String.eqb_neq in Hdb.
  assert (match table with
          | Some t =>
              String.eqb (Schema t) (db s) = false
              /\ (tp = ShowTriggers -> String.eqb (Name t) (db s) = false)
          | None => True
          end) as Hnames.
  { destruct table as [t|]; [|done].
    destruct (Htable t eq_refl) as [Hschema Hname].
    split; [by apply String.eqb_neq|].
    intros Htp. by apply String.eqb_neq, Hname. }
  unfold handleShow, executeOnDefaultSlice, mbind, M_bind, get_stmt,
    get_session, set_stmt, send, answer.
  destruct table as [t|].
  - destruct Hnames as [Hschema Hname].
    destruct tp; try discriminate Hkind; cbn; rewrite Hdb; cbn;
      rewrite Hschema; cbn; rewrite ?(Hname eq_refl); cbn;
      rewrite Hexec; by destruct out.
  - destruct tp; try discriminate Hkind; cbn; rewrite Hdb; cbn;
      rewrite Hexec; by destruct out.
Qed.

(** X27: a SHOW TABLES, COLUMNS, INDEX, TRIGGERS or CREATE TABLE whose
    database is the session's database (and that names no table) is
    rewritten for the physical database: the node gets the name
    [GetDefaultPhyDB] returned as its database, and what is sent to the
    default slice is the restored text of the rewritten node. The error
    [GetDefaultPhyDB] returned with the name is not looked at; an error
    of the backend is reported against the text the client wrote. *)
Theorem handleShow_physical (reqCtx : RequestContext) (sql : string)
    (w : ShowWorld) (out : Result + error) (s' : SessionExecutor) (x' : Ext) :
  tableKind (Tp (stmt w)) = true ->
  DBName (stmt w) = db (session w) ->
  Table (stmt w) = None ->
  ExecuteSQL reqCtx DefaultSlice (db (session w))
    (Restore {| Tp := Tp (stmt w);
                DBName := (GetDefaultPhyDB (GetNamespace (session w))
                             (db (session w))).1;
                Table := None |})
    (session w, outside w) = (Done out, (s', x')) ->
  handleShow reqCtx sql w =
    (Done (answer sql s' out),
     {| session := s';
        stmt := {| Tp := Tp (stmt w);
                   DBName := (GetDefaultPhyDB (GetNamespace (session w))
                                (db (session w))).1;
                   Table := None |};
        outside := x';
        queries := queries w ++
          [ExecuteSQL_query DefaultSlice (db (session w))
             (Restore {| Tp := Tp (stmt w);
                         DBName := (GetDefaultPhyDB
                                      (GetNamespace (session w))
                                      (db (session w))).1;
                         Table := None |})] |}).
Proof.
  destruct w as [s [tp dbName table] x qs]. cbn.
  intros Hkind -> -> Hexec.
  unfold handleShow, executeOnDefaultSlice, mbind, M_bind, get_stmt,
    get_session, set_stmt, send, answer.
  destruct tp; try discriminate Hkind; cbn; rewrite String.eqb_refl; cbn;
    cbn in Hexec; rewrite Hexec; by destruct out.
Qed.

End Handler.

End Show.

(** *** A small deployment

    One namespace ([shop]) with a refused statement, a read-only user, a
    metrics sink that fails on one statement, and backends that answer
    every call. The handlers run on it. *)

Inductive DemoStmtType := DemoSelect | DemoInsert | DemoSet | DemoShow.

#[local] Instance DemoStmtType_eq_dec : EqDecision DemoStmtType.
Proof. solve_decision. Defined.

#[local] Instance demoTypes : Types := {|
  ExprNode := string;
  ShowStmt := unit;
  OtherStmt := unit;
  StatementType := DemoStmtType;
  Result := string;
  Plan := string;
  Namespace := string;
  SessionVariables := unit;
  Ext := nat
|}.

Definition demoPreview (sql : string) : DemoStmtType :=
  if String.prefix "insert" sql then DemoInsert
  else if String.prefix "set" sql then DemoSet
  else if String.prefix "show" sql then DemoShow
  else DemoSelect.

Definition demoOnOff (v : string) : Z + error :=
  if String.eqb v "on" || String.eqb v "1" then inl 1
  else if String.eqb v "off" || String.eqb v "0" then inl 0
  else inr (ForeignError "not an on/off value").

#[local] Instance demoCollaborators : Collaborators := {|
  ServerStatusInTrans := 1;
  ServerStatusAutocommit := 2;
  SQLModeStr := "sql_mode";
  SQLSafeUpdates := "sql_safe_updates";
  TimeZone := "time_zone";
  MaxAllowedPacket := "max_allowed_packet";
  gaeaGeneralLogVariable := "gaea_general_log";
  DefaultSlice := "slice-0";
  StmtShow := DemoShow;
  CharsetsToCollationNames := {[ "utf8" := "utf8_general_ci" ]};
  CollationIds := {[ "utf8_general_ci" := 33 ]};
  CollationNameToCharset := {[ "utf8_general_ci" := "utf8" ]};
  CanHandleWithoutPlan t :=
    match t with DemoSet | DemoShow => true | _ => false end;
  isSQLNotAllowedByUser s t :=
    String.eqb (user s) "reader" &&
    match t with DemoInsert => true | _ => false end;
  canExecuteFromSlave _ _ := false;
  modifyResultStatus r _ := r;
  getVariableExprResult e := ToLower e;
  getOnOffVariable := demoOnOff;
  GetNamespace s := namespace s;
  GetName ns := ns;
  IsAllowedDB _ d := String.eqb d "shop";
  GetDefaultCharset _ := "utf8";
  GetDefaultCollationID _ := 33;
  IsSQLAllowed _ _ sql x :=
    if String.eqb sql "call crash()"
    then (Panicked (PanicError "nil pointer dereference"), x)
    else (Done (negb (String.eqb sql "drop table orders")), x);
  GetFingerprint sql := Done (ToLower sql);
  RecordSQLForbidden _ _ x := (Done tt, S x);
  PreviewSql sql := Done (demoPreview sql);
  RecordSessionSQLMetrics _ _ sql _ x :=
    if String.eqb sql "select 1"
    then (Panicked (PanicOther "metrics sink closed"), x)
    else (Done tt, x);
  ParseOneStmt _ x := (Done (inl (OtherStmtNode tt)), x);
  BuildPlan _ _ _ sql x := (Done (inl sql), x);
  ExecuteIn p _ sx := (Done (inl ("rows of " +:+ p)), sx);
  executeSQLNoData _ _ _ _ sx := (Done (inr (ForeignError "no data")), sx);
  handleShow _ _ _ sx := (Done (None, None), sx);
  handleBegin sx := (Done None, sx);
  handleCommit sx := (Done None, sx);
  handleRollback sx := (Done None, sx);
  setStringSessionVariable _ _ sx := (Done None, sx);
  setIntSessionVariable _ _ sx := (Done None, sx);
  setGeneralLogVariable _ sx := (Done None, sx);
  pcSetAutoCommit _ _ x := (Done None, x);
  pcRecycle _ x := (Done tt, S x)
|}.

Definition demoStmt : Stmt :=
  {| stmtId := 258; stmtSql := "select ?"; paramCount := 1;
     offsets := [7]; columnCount := 0 |}.

(** A session of [userName] inside a transaction that has pinned one
    connection on each of two slices, with one prepared statement. *)
Definition demoSession (userName : string) : SessionExecutor :=
  {| namespace := "shop-ns"; user := userName; db := "shop";
     status := 3; charset := "utf8"; collation := 33;
     txConns := {[ "slice-0" := {| connId := 7 |};
                   "slice-1" := {| connId := 9 |} ]};
     stmtID := 259; stmts := {[ 258 := demoStmt ]};
     sessionVariables := tt |}.

Definition demoWorld (userName : string) : World :=
  {| se := demoSession userName; reqCtx := NewRequestContext;
     ext := 0%nat; trace := [] |}.

Definition assignment (name value : string) (isGlobal : bool)
  : VariableAssignment :=
  {| Name := name; Value := value; IsGlobal := isGlobal;
     ExtendValue := None |}.

(** The refused statement, end to end. *)
Lemma handleQuery_blacklisted_witness :
  handleQuery "drop table orders;" (demoWorld "alice") =
    ((None, Some errBlacklist),
     {| se := demoSession "alice"; reqCtx := NewRequestContext; ext := 1%nat;
        trace :=
          [CallIsSQLAllowed "drop table orders";
           CallGetFingerprint "drop table orders";
           Warnf "catch black parser, parser: %s" ["drop table orders"];
           CallRecordSQLForbidden "drop table orders" "shop-ns"] |}).
Proof.
  exact (handleQuery_blacklisted "drop table orders;" (demoWorld "alice")
           0%nat "drop table orders" 1%nat eq_refl eq_refl eq_refl).
Defined.



(** The world [doQuery] finds when [handleQuery] has previewed the
    statement as [t]. *)
Definition previewed (t : DemoStmtType) (w : World) : World :=
  with_reqCtx {| ctxStmtType := Some t; ctxFromSlave := None |} w.

Lemma doQuery_read_only_witness :
  doQuery "insert into orders values (1)"
    (previewed DemoInsert (demoWorld "reader")) =
  (Done (None, Some (Errorf "write DML is now allowed by read user" [])),
   previewed DemoInsert (demoWorld "reader")).
Proof.
  exact (@doQuery_read_only demoTypes demoCollaborators
           "insert into orders values (1)"
           (previewed DemoInsert (demoWorld "reader")) DemoInsert
           eq_refl eq_refl).
Defined.

(** The claim of C6 fails where it names the error: the read-only user's
    INSERT is refused, but with an error that carries no MySQL error
    number, 1290 or other. *)
Lemma doQuery_read_only_not_1290 :
  isSQLNotAllowedByUser (demoSession "reader") DemoInsert = true /\
  ~ exists e w',
      doQuery "insert into orders values (1)"
        (previewed DemoInsert (demoWorld "reader")) =
        (Done (None, Some e), w') /\
      sqlErrno e = Some 1290.
Proof.
  split; [reflexivity|].
  intros (e & w' & Hd & He).
  assert (Hc : doQuery "insert into orders values (1)"
                 (previewed DemoInsert (demoWorld "reader")) =
               (Done (None,
                      Some (Errorf "write DML is now allowed by read user" [])),
                previewed DemoInsert (demoWorld "reader")))
    by reflexivity.
  rewrite Hc in Hd. injection Hd as <- _. discriminate He.
Defined.



(** [SET autocommit = 0, max_allowed_packet = 1, autocommit = 1]: the
    second assignment fails, the first one has cleared the autocommit
    flag (status 3 becomes 1), the third one is never applied. *)
Lemma handleSet_stops_at_first_error_witness :
  assigned [assignment "autocommit" "0" false] (demoWorld "alice")
    (with_se (set_status 1) (demoWorld "alice")) /\
  handleSetVariable (assignment "max_allowed_packet" "1" false)
    (with_se (set_status 1) (demoWorld "alice")) =
    (Done (Some (NewDefaultError ErrVariableIsReadonly
                   ["SESSION"; "max_allowed_packet"; "GLOBAL"])),
     with_se (set_status 1) (demoWorld "alice")) /\
  handleSet [assignment "autocommit" "0" false;
             assignment "max_allowed_packet" "1" false;
             assignment "autocommit" "1" false] (demoWorld "alice") =
    (Done (None,
           Some (NewDefaultError ErrVariableIsReadonly
                   ["SESSION"; "max_allowed_packet"; "GLOBAL"])),
     with_se (set_status 1) (demoWorld "alice")).
Proof.
  assert (Ha : assigned [assignment "autocommit" "0" false]
                 (demoWorld "alice")
                 (with_se (set_status 1) (demoWorld "alice"))).
  { apply (assigned_cons _ [] _ (with_se (set_status 1) (demoWorld "alice")));
      [vm_compute; reflexivity|apply assigned_nil]. }
  assert (Hv : handleSetVariable (assignment "max_allowed_packet" "1" false)
                 (with_se (set_status 1) (demoWorld "alice")) =
               (Done (Some (NewDefaultError ErrVariableIsReadonly
                              ["SESSION"; "max_allowed_packet"; "GLOBAL"])),
                with_se (set_status 1) (demoWorld "alice")))
    by (vm_compute; reflexivity).
  split; [exact Ha|]. split; [exact Hv|].
  exact (handleSet_stops_at_first_error
           [assignment "autocommit" "0" false]
           (assignment "max_allowed_packet" "1" false)
           [assignment "autocommit" "1" false] _ _ _ _ Ha Hv).
Defined.

(** COM_STMT_CLOSE of statement 258 (bytes 02 01 00 00): the only entry
    of the table goes. *)
Lemma handleStmtClose_spec_witness :
  exists w',
    handleStmtClose [x02; x01; x00; x00] (demoWorld "alice") =
      (Done None, w') /\
    stmts (se w') = ∅ /\
    handleStmtClose [x02; x01; x00; x00] w' = (Done None, w').
Proof.
  destruct (handleStmtClose_spec [x02; x01; x00; x00]
              (demoWorld "alice")) as (w' & Hr & _ & Hlong & Hagain).
  exists w'. split; [exact Hr|]. split; [|exact Hagain].
  destruct (Hlong _ _ _ _ _ eq_refl) as (_ & Hs & _).
  rewrite Hs. apply map_eq. intros i. rewrite lookup_delete.
  simpl. case_decide as Hi; [done|].
  rewrite lookup_empty. apply lookup_singleton_ne. exact Hi.
Defined.

(** The same deployment with a collation table that has no ids, a parser
    that does not know SHOW SLAVE STATUS, and a default slice that answers
    what it is sent. *)
Definition laggingDeployment : @Collaborators demoTypes := {|
  ServerStatusInTrans := @ServerStatusInTrans demoTypes demoCollaborators;
  ServerStatusAutocommit := @ServerStatusAutocommit demoTypes demoCollaborators;
  SQLModeStr := @SQLModeStr demoTypes demoCollaborators;
  SQLSafeUpdates := @SQLSafeUpdates demoTypes demoCollaborators;
  TimeZone := @TimeZone demoTypes demoCollaborators;
  MaxAllowedPacket := @MaxAllowedPacket demoTypes demoCollaborators;
  gaeaGeneralLogVariable := @gaeaGeneralLogVariable demoTypes demoCollaborators;
  DefaultSlice := @DefaultSlice demoTypes demoCollaborators;
  StmtShow := @StmtShow demoTypes demoCollaborators;
  CharsetsToCollationNames := @CharsetsToCollationNames demoTypes demoCollaborators;
  CollationIds := ∅;
  CollationNameToCharset := @CollationNameToCharset demoTypes demoCollaborators;
  CanHandleWithoutPlan := @CanHandleWithoutPlan demoTypes demoCollaborators;
  isSQLNotAllowedByUser := @isSQLNotAllowedByUser demoTypes demoCollaborators;
  canExecuteFromSlave := @canExecuteFromSlave demoTypes demoCollaborators;
  modifyResultStatus := @modifyResultStatus demoTypes demoCollaborators;
  getVariableExprResult := @getVariableExprResult demoTypes demoCollaborators;
  getOnOffVariable := @getOnOffVariable demoTypes demoCollaborators;
  GetNamespace := @GetNamespace demoTypes demoCollaborators;
  GetName := @GetName demoTypes demoCollaborators;
  IsAllowedDB := @IsAllowedDB demoTypes demoCollaborators;
  GetDefaultCharset := @GetDefaultCharset demoTypes demoCollaborators;
  GetDefaultCollationID := @GetDefaultCollationID demoTypes demoCollaborators;
  IsSQLAllowed := @IsSQLAllowed demoTypes demoCollaborators;
  GetFingerprint := @GetFingerprint demoTypes demoCollaborators;
  RecordSQLForbidden := @RecordSQLForbidden demoTypes demoCollaborators;
  PreviewSql := @PreviewSql demoTypes demoCollaborators;
  RecordSessionSQLMetrics := @RecordSessionSQLMetrics demoTypes demoCollaborators;
  ParseOneStmt := fun sql x =>
      if String.prefix "show slave" sql
      then (Done (inr (ForeignError "syntax error")), x)
      else (Done (inl (OtherStmtNode tt)), x);
  BuildPlan := @BuildPlan demoTypes demoCollaborators;
  ExecuteIn := @ExecuteIn demoTypes demoCollaborators;
  executeSQLNoData := fun _ _ _ sql sx => (Done (inl ("answer to " +:+ sql)), sx);
  handleShow := @handleShow demoTypes demoCollaborators;
  handleBegin := @handleBegin demoTypes demoCollaborators;
  handleCommit := @handleCommit demoTypes demoCollaborators;
  handleRollback := @handleRollback demoTypes demoCollaborators;
  setStringSessionVariable := @setStringSessionVariable demoTypes demoCollaborators;
  setIntSessionVariable := @setIntSessionVariable demoTypes demoCollaborators;
  setGeneralLogVariable := @setGeneralLogVariable demoTypes demoCollaborators;
  pcSetAutoCommit := @pcSetAutoCommit demoTypes demoCollaborators;
  pcRecycle := @pcRecycle demoTypes demoCollaborators
|}.

Lemma handleSetVariable_ignored_witness :
  handleSetVariable (assignment "WAIT_TIMEOUT" "28800" false)
    (demoWorld "alice")
  = (Done None, demoWorld "alice").
Proof.
  apply (@handleSetVariable_ignored demoTypes demoCollaborators
           (assignment "WAIT_TIMEOUT" "28800" false) (demoWorld "alice"));
    [reflexivity|].
  left. apply (proj1 (bool_decide_eq_true _)). vm_compute. reflexivity.
Defined.


(** [utf8] where the collation of [utf8] has no id: accepted with
    collation 0 by [SET character_set_client], refused by [SET NAMES]. *)
Lemma handleSetVariable_collation_id_missing_witness :
  @handleSetVariable demoTypes laggingDeployment
    (assignment "character_set_client" "utf8" false) (demoWorld "alice")
  = (Done None, with_se (set_charset "utf8" 0) (demoWorld "alice"))
  /\ @handleSetVariable demoTypes laggingDeployment
       (assignment "setnames" "utf8" false) (demoWorld "alice")
     = (Done (Some (NewDefaultError ErrUnknownCharacterSet ["utf8"%string])),
        demoWorld "alice").
Proof.
  split.
  - apply (proj1 (@handleSetVariable_collation_id_missing demoTypes
                    laggingDeployment
                    (assignment "character_set_client" "utf8" false)
                    (demoWorld "alice") "utf8" "utf8_general_ci"
                    eq_refl eq_refl eq_refl ltac:(discriminate)
                    ltac:(discriminate) eq_refl eq_refl)).
    apply (proj1 (bool_decide_eq_true _)). vm_compute. reflexivity.
  - exact (proj2 (@handleSetVariable_collation_id_missing demoTypes
                    laggingDeployment
                    (assignment "setnames" "utf8" false)
                    (demoWorld "alice") "utf8" "utf8_general_ci"
                    eq_refl eq_refl eq_refl ltac:(discriminate)
                    ltac:(discriminate) eq_refl eq_refl) eq_refl).
Defined.

(** SHOW SLAVE STATUS does not parse and is answered by the default
    slice. *)
Lemma handleQueryWithoutPlan_unparsable_witness :
  @handleQueryWithoutPlan demoTypes laggingDeployment "show slave status"
    (previewed DemoShow (demoWorld "alice"))
  = (Done (Some "answer to show slave status"%string, None),
     {| se := demoSession "alice";
        reqCtx := {| ctxStmtType := Some DemoShow; ctxFromSlave := None |};
        ext := 0%nat;
        trace := [CallParse "show slave status";
                  CallExecuteSQLNoData "slice-0" "shop"
                    "show slave status"] |}).
Proof.
  exact (proj2 (@handleQueryWithoutPlan_unparsable demoTypes
                  laggingDeployment "show slave status"
                  (previewed DemoShow (demoWorld "alice"))
                  (ForeignError "syntax error") 0%nat DemoShow
                  eq_refl eq_refl)
           eq_refl (inl "answer to show slave status"%string)
           (demoSession "alice") 0%nat eq_refl).
Defined.

(** [select 2;] end to end. *)
Lemma handleQuery_allowed_witness :
  handleQuery "select 2;" (demoWorld "alice")
  = ((Some "rows of select 2"%string, None),
     {| se := demoSession "alice";
        reqCtx := {| ctxStmtType := Some DemoSelect; ctxFromSlave := None |};
        ext := 0%nat;
        trace := [CallIsSQLAllowed "select 2"; CallPreviewSql "select 2";
                  CallParse "select 2"; CallBuildPlan "shop" "select 2";
                  CallExecuteIn;
                  CallRecordSessionSQLMetrics "select 2" None] |}).
Proof.
  exact (@handleQuery_allowed demoTypes demoCollaborators "select 2;"
           (demoWorld "alice")
           {| se := demoSession "alice";
              reqCtx := {| ctxStmtType := Some DemoSelect;
                           ctxFromSlave := None |};
              ext := 0%nat;
              trace := [CallIsSQLAllowed "select 2"; CallPreviewSql "select 2";
                        CallParse "select 2";
                        CallBuildPlan "shop" "select 2"; CallExecuteIn] |}
           0%nat 0%nat DemoSelect (Some "rows of select 2"%string, None)
           eq_refl eq_refl eq_refl eq_refl).
Defined.

(** Prepared statements on the deployment: the parameters of two known
    statements, a statement whose string is not closed, and no argument
    buffer to reset. *)
Definition demoCalcParams (sql : string) : Z * list Z + error :=
  if String.eqb sql "select ?" then inl (1, [7])
  else if String.eqb sql "select '" then
    inr (ForeignError "unterminated string")
  else inl (0, []).

Definition demoDebugf (format : string) (args : list string) (x : nat) : nat :=
  x.

Definition demoPrepare : string -> M World (option Stmt * option error) :=
  @handleStmtPrepare demoTypes demoCollaborators demoCalcParams
    (fun stmt => stmt) demoDebugf.

(** [PREPARE 'select ?;'] takes id 259 and moves the counter to 260. *)
Lemma handleStmtPrepare_registers_witness :
  exists stmt w',
    demoPrepare "select ?;" (demoWorld "alice") = (Done (Some stmt, None), w')
    /\ stmtId stmt = 259
    /\ stmts (se w') !! 259 = Some stmt
    /\ stmtID (se w') = 260.
Proof.
  destruct (@handleStmtPrepare_registers demoTypes demoCollaborators
              demoCalcParams (fun stmt => stmt) demoDebugf "select ?;"
              (demoWorld "alice") 1 [7] (fun stmt => eq_refl) eq_refl)
    as (stmt & w' & Hrun & Hid & Hstored & _ & Hnext & _).
  exists stmt, w'. by repeat split.
Defined.

Lemma handleStmtPrepare_refused_witness :
  exists w',
    demoPrepare "select ';" (demoWorld "alice")
    = (Done (None, Some (ForeignError "unterminated string")), w')
    /\ se w' = demoSession "alice".
Proof.
  destruct (@handleStmtPrepare_refused demoTypes demoCollaborators
              demoCalcParams (fun stmt => stmt) demoDebugf "select ';"
              (demoWorld "alice") (ForeignError "unterminated string")
              eq_refl)
    as (w' & Hrun & Hse & _).
  exists w'. by split.
Defined.

(** PREPARE, then CLOSE with the bytes 03 01 00 00 of id 259 and a
    trailing byte: the table holds statement 258 alone, as before. *)
Lemma handleStmtPrepare_then_close_witness :
  exists stmt w1 w2,
    demoPrepare "select ?;" (demoWorld "alice") = (Done (Some stmt, None), w1)
    /\ handleStmtClose (PutUint32 (stmtId stmt) ++ [xff]) w1
       = (Done None, w2)
    /\ stmts (se w2) = stmts (demoSession "alice").
Proof.
  destruct (@handleStmtPrepare_then_close demoTypes demoCollaborators
              demoCalcParams (fun stmt => stmt) demoDebugf "select ?;"
              (demoWorld "alice") 1 [7] [xff] (fun stmt => eq_refl)
              ltac:(cbn; lia) eq_refl)
    as (stmt & w1 & w2 & Hrun & Hclose & _ & Hfree).
  exists stmt, w1, w2. split; [exact Hrun|]. split; [exact Hclose|].
  apply Hfree. reflexivity.
Defined.

(** Two PREPAREs on the deployment take ids 259 and 260. *)
Lemma handleStmtPrepare_twice_witness :
  exists stmt1 w1 stmt2 w2,
    demoPrepare "select ?;" (demoWorld "alice")
    = (Done (Some stmt1, None), w1)
    /\ demoPrepare "select 1" w1 = (Done (Some stmt2, None), w2)
    /\ stmtId stmt1 <> stmtId stmt2
    /\ stmts (se w2) !! stmtId stmt1 = Some stmt1
    /\ stmts (se w2) !! stmtId stmt2 = Some stmt2.
Proof.
  exact (@handleStmtPrepare_twice demoTypes demoCollaborators
           demoCalcParams (fun stmt => stmt) demoDebugf "select ?;"
           "select 1" (demoWorld "alice") 1 0 [7] [] (fun stmt => eq_refl)
           ltac:(cbn; lia) eq_refl eq_refl).
Defined.

(** COM_FIELD_LIST on the deployment: one slice, a physical database per
    logical one, a connection that lists two fields of [orders]. *)
Definition demoPhyDB (ns d : string) : string + error :=
  inl (d +:+ "_phy")%string.

Definition demoGetConn (slice : string) (rwSplit : bool)
    (sx : @SessionExecutor demoTypes * nat)
  : outcome (PooledConnect + error) * (@SessionExecutor demoTypes * nat) :=
  (Done (inl {| connId := 11 |}), sx).

Definition demoRecycle (pc : PooledConnect) (force : bool)
    (sx : @SessionExecutor demoTypes * nat)
  : outcome unit * (@SessionExecutor demoTypes * nat) :=
  (Done tt, sx).

Definition demoInitConn (pc : PooledConnect) (phyDB cs : string) (col : Z)
    (vars : unit) (x : nat) : outcome (option error) * nat :=
  (Done None, x).

Definition demoListFields (pc : PooledConnect) (table wildcard : string)
    (x : nat) : outcome (list string + error) * nat :=
  (Done (inl [table +:+ ".id"; table +:+ ".total"]%string), x).

Definition demoFieldList : list byte
    -> M (@Backends demoTypes) (option (list string) * option error) :=
  @handleFieldList demoTypes demoCollaborators string
    (fun s => db s) (fun s => charset s) (fun s => collation s)
    (fun s => sessionVariables s) (fun _ _ => false) demoPhyDB
    (fun _ _ _ => Done "slice-0"%string)
    demoGetConn demoRecycle demoInitConn demoListFields.

Definition demoBackends : @Backends demoTypes :=
  {| session := demoSession "alice"; outside := 0%nat; calls := [] |}.

(** The bytes of [orders]. *)
Definition ordersBytes : list byte := [x6f; x72; x64; x65; x72; x73].

Lemma no_zero_byte : x00 ∉ ordersBytes.
Proof.
  intros Hin. unfold ordersBytes in Hin.
  repeat (apply elem_of_cons in Hin as [Hin|Hin]; [discriminate Hin|]).
  by apply elem_of_nil in Hin.
Qed.

Lemma handleFieldList_no_terminator_witness :
  demoFieldList ordersBytes demoBackends
  = (Panicked (PanicError "runtime error: slice bounds out of range"),
     demoBackends).
Proof.
  apply (@handleFieldList_no_terminator demoTypes demoCollaborators).
  apply no_zero_byte.
Defined.

Lemma handleFieldList_recycles_witness :
  exists t,
    calls (demoFieldList (ordersBytes ++ x00 :: [x25]) demoBackends).2
    = [] ++ CallGetBackendConn "slice-0" false
         :: t ++ [CallRecycleBackendConn {| connId := 11 |}]
    /\ forall pc', CallRecycleBackendConn pc' ∉ t.
Proof.
  apply (@handleFieldList_recycles demoTypes demoCollaborators string
           (fun s => db s) (fun s => charset s) (fun s => collation s)
           (fun s => sessionVariables s) (fun _ _ => false) demoPhyDB
           (fun _ _ _ => Done "slice-0"%string)
           demoGetConn demoRecycle demoInitConn demoListFields
           ordersBytes [x25] demoBackends "slice-0"
           {| connId := 11 |} (demoSession "alice") 0%nat);
    [|reflexivity|reflexivity].
  apply no_zero_byte.
Defined.

(** [orders\0%]: the fields of [orders], wildcard [%]. *)
Lemma handleFieldList_fields_witness :
  demoFieldList (ordersBytes ++ x00 :: [x25]) demoBackends
  = (Done (Some ["orders.id"; "orders.total"]%string, None),
     {| session := demoSession "alice"; outside := 0%nat;
        calls := [CallGetBackendConn "slice-0" false;
                  CallInitBackendConn {| connId := 11 |} "shop_phy";
                  CallFieldList {| connId := 11 |} "orders" "%";
                  CallRecycleBackendConn {| connId := 11 |}] |}).
Proof.
  apply (@handleFieldList_fields demoTypes demoCollaborators string
           (fun s => db s) (fun s => charset s) (fun s => collation s)
           (fun s => sessionVariables s) (fun _ _ => false) demoPhyDB
           (fun _ _ _ => Done "slice-0"%string)
           demoGetConn demoRecycle demoInitConn demoListFields
           ordersBytes [x25] demoBackends "slice-0"
           "shop_phy" {| connId := 11 |} (demoSession "alice")
           (demoSession "alice") 0%nat 0%nat 0%nat 0%nat
           ["orders.id"; "orders.total"]%string);
    try reflexivity.
  apply no_zero_byte.
Defined.

(** A statement that needs a plan and that the parser refuses. *)
Lemma doQuery_no_plan_witness :
  @doQuery demoTypes laggingDeployment "show slave hosts"
    (previewed DemoSelect (demoWorld "alice"))
  = (Done (None,
           Some (Errorf "get plan error, db: %s, parser: %s, err: %v"
                   [ArgString "shop"; ArgString "show slave hosts";
                    ArgError
                      (Errorf "parse parser error, parser: %s, err: %v"
                         [ArgString "show slave hosts";
                          ArgError (ForeignError "syntax error")])])),
     @afterPlanning demoTypes "show slave hosts"
       (previewed DemoSelect (demoWorld "alice")) 0%nat
       [CallParse "show slave hosts"]).
Proof.
  exact (proj1 (@doQuery_no_plan demoTypes laggingDeployment
                  "show slave hosts"
                  (previewed DemoSelect (demoWorld "alice")) DemoSelect
                  eq_refl eq_refl eq_refl)
           (ForeignError "syntax error") 0%nat eq_refl).
Defined.

Lemma doQuery_executes_witness :
  doQuery "select 2" (previewed DemoSelect (demoWorld "alice"))
  = (Done (Some "rows of select 2"%string, None),
     {| se := demoSession "alice";
        reqCtx := {| ctxStmtType := Some DemoSelect; ctxFromSlave := None |};
        ext := 0%nat;
        trace := [CallParse "select 2"; CallBuildPlan "shop" "select 2";
                  CallExecuteIn] |}).
Proof.
  exact (@doQuery_executes demoTypes demoCollaborators "select 2"
           (previewed DemoSelect (demoWorld "alice")) DemoSelect
           (OtherStmtNode tt) "select 2"%string 0%nat 0%nat 0%nat
           (demoSession "alice") (inl "rows of select 2"%string)
           eq_refl eq_refl eq_refl eq_refl eq_refl eq_refl).
Defined.


(** SHOW on the deployment: the physical database of [shop] is
    [shop_phy], and the default slice answers with the text it was
    sent. *)
Definition demoRestore (st : Show.ShowStmt) : string :=
  ("SHOW TABLES FROM " +:+ Show.DBName st)%string.

Definition demoExecuteSQL (c : @RequestContext demoTypes)
    (slice d sql : string) (sx : @SessionExecutor demoTypes * nat)
  : outcome (string + error) * (@SessionExecutor demoTypes * nat) :=
  (Done (inl ("rows of " +:+ sql)%string), sx).

Definition demoShow : string
    -> M (@Show.ShowWorld demoTypes) (option string * option error) :=
  @Show.handleShow demoTypes demoCollaborators
    (fun _ => ["shop"%string])
    (fun dbs => (Some (String.concat "," dbs), None))
    "general log is off"%string
    (fun _ d => ((d +:+ "_phy")%string, None))
    demoRestore demoExecuteSQL NewRequestContext.

Definition showing (tp : Show.ShowStmtType) (dbName : string)
  : @Show.ShowWorld demoTypes :=
  {| Show.session := demoSession "alice";
     Show.stmt := {| Show.Tp := tp; Show.DBName := dbName;
                     Show.Table := None |};
     Show.outside := 0%nat; Show.queries := [] |}.

Lemma handleShow_local_witness :
  demoShow "show databases" (showing Show.ShowDatabases "")
  = (Done (Some "shop"%string, None), showing Show.ShowDatabases "")
  /\ demoShow "show variables like 'gaea_general_log'"
       (showing Show.ShowVariables "")
     = (Done (Some "general log is off"%string, None),
        showing Show.ShowVariables "").
Proof.
  split.
  - exact (proj1 (@Show.handleShow_local demoTypes demoCollaborators
                    (fun _ => ["shop"%string])
                    (fun dbs => (Some (String.concat "," dbs), None))
                    "general log is off"%string
                    (fun _ d => ((d +:+ "_phy")%string, None))
                    demoRestore demoExecuteSQL NewRequestContext
                    "show databases" (showing Show.ShowDatabases ""))
             eq_refl).
  - exact (proj2 (@Show.handleShow_local demoTypes demoCollaborators
                    (fun _ => ["shop"%string])
                    (fun dbs => (Some (String.concat "," dbs), None))
                    "general log is off"%string
                    (fun _ d => ((d +:+ "_phy")%string, None))
                    demoRestore demoExecuteSQL NewRequestContext
                    "show variables like 'gaea_general_log'"
                    (showing Show.ShowVariables ""))
             eq_refl eq_refl).
Defined.

(** [show tables from other]: another database than the session's. *)
Lemma handleShow_verbatim_witness :
  demoShow "show tables from other" (showing Show.ShowTables "other")
  = (Done (Some "rows of show tables from other"%string, None),
     {| Show.session := demoSession "alice";
        Show.stmt := {| Show.Tp := Show.ShowTables; Show.DBName := "other";
                        Show.Table := None |};
        Show.outside := 0%nat;
        Show.queries :=
          [Show.ExecuteSQL_query "slice-0" "shop"
             "show tables from other"] |}).
Proof.
  apply (@Show.handleShow_verbatim demoTypes demoCollaborators
           (fun _ => ["shop"%string])
           (fun dbs => (Some (String.concat "," dbs), None))
           "general log is off"%string
           (fun _ d => ((d +:+ "_phy")%string, None))
           demoRestore demoExecuteSQL NewRequestContext
           "show tables from other" (showing Show.ShowTables "other")
           (inl "rows of show tables from other"%string)
           (demoSession "alice") 0%nat);
    [reflexivity|discriminate|discriminate|reflexivity].
Defined.

(** [show tables from shop]: the session's database. *)
Lemma handleShow_physical_witness :
  demoShow "show tables from shop" (showing Show.ShowTables "shop")
  = (Done (Some "rows of SHOW TABLES FROM shop_phy"%string, None),
     {| Show.session := demoSession "alice";
        Show.stmt := {| Show.Tp := Show.ShowTables;
                        Show.DBName := "shop_phy"; Show.Table := None |};
        Show.outside := 0%nat;
        Show.queries :=
          [Show.ExecuteSQL_query "slice-0" "shop"
             "SHOW TABLES FROM shop_phy"] |}).
Proof.
  exact (@Show.handleShow_physical demoTypes demoCollaborators
           (fun _ => ["shop"%string])
           (fun dbs => (Some (String.concat "," dbs), None))
           "general log is off"%string
           (fun _ d => ((d +:+ "_phy")%string, None))
           demoRestore demoExecuteSQL NewRequestContext
           "show tables from shop" (showing Show.ShowTables "shop")
           (inl "rows of SHOW TABLES FROM shop_phy"%string)
           (demoSession "alice") 0%nat eq_refl eq_refl eq_refl eq_refl).
Defined.

End Server.
